(** * Flex media server: configuration loading

    A shallow embedding of package [config] (function [Load] and its helpers
    [getEnv], [getEnvAsInt], [getEnvAsDuration]) together with the parts of
    the Go standard library it runs: [os.Getenv], [strconv.Atoi],
    [time.ParseDuration] and [strings.Split], which follow the sources of
    the current Go releases; and of [initLogger] of package [main], which
    reads three of the same variables.

    Conventions
    - a Go [string] is a sequence of bytes: [String.string], one [ascii] per
      byte;
    - Go's [int] (64-bit targets), [int64] and [time.Duration] are [Z] in the
      two's complement range, [uint64] is [Z] in [0, 2^64); every place where
      the Go code can wrap has the wrap written out;
    - a Go result [(v, err)] is a pair whose second component is
      [option error], [None] standing for [nil];
    - the process environment is a finite map from names to values and is
      passed explicitly to everything that reads it. *)

From Stdlib Require Import ZArith String Ascii List Lia.
From Stdlib Require Import Floats.
From stdpp Require Import gmap strings.

Local Open Scope string_scope.
Local Open Scope Z_scope.

(** ** Bytes and strings *)

Definition byte (c : ascii) : Z := Z.of_N (N_of_ascii c).

Definition len (s : string) : Z := Z.of_nat (String.length s).

(** ['0' <= c && c <= '9'] *)
Definition isDigit (c : ascii) : bool := (48 <=? byte c) && (byte c <=? 57).

(** Conversions to the fixed-width integer types. *)
Definition uint8 (z : Z) : Z := z mod 2 ^ 8.
Definition uint64 (z : Z) : Z := z mod 2 ^ 64.
Definition int64 (z : Z) : Z := (z + 2 ^ 63) mod 2 ^ 64 - 2 ^ 63.

(** ** Errors

    The callers in package [config] only compare an error with [nil], so the
    text of a message is not modelled: an error keeps its kind and the
    strings the Go value is built from. *)

Inductive strconvErr : Type := ErrSyntax | ErrRange.

Inductive error : Type :=
| NumError (Func Num : string) (Err : strconvErr)
| errInvalidDuration (orig : string)
| errMissingUnit (orig : string)
| errUnknownUnit (u orig : string).

Definition syntaxError (fn str : string) : error := NumError fn str ErrSyntax.
Definition rangeError (fn str : string) : error := NumError fn str ErrRange.

(** ** package os *)

(** [os.Getenv(key)]: the value of the variable, which is empty when the
    variable is not present. *)
Definition Getenv (env : gmap string string) (key : string) : string :=
  default "" (env !! key).

(** ** package strconv *)

(** [strconv.IntSize] on the 64-bit targets. *)
Definition intSize : Z := 64.

(** The loop of the fast path of [Atoi]; [None] is its [syntaxError] exit. *)
Fixpoint Atoi_fast_loop (s : string) (n : Z) : option Z :=
  match s with
  | "" => Some n
  | String c s' =>
      let ch := uint8 (byte c - 48) in
      if 9 <? ch then None else Atoi_fast_loop s' (n * 10 + ch)
  end.

(** The digit loop of [ParseUint] for base 10 (the base [Atoi] passes): the
    underscore case needs base 0, and a letter is a digit of value 10 or
    more, which base 10 rejects. *)
Fixpoint ParseUint_loop (s0 : string) (maxVal : Z) (s : string) (n : Z)
  : Z * option error :=
  let cutoff := (2 ^ 64 - 1) / 10 + 1 in
  match s with
  | "" => (n, None)
  | String c s' =>
      if isDigit c then
        let d := byte c - 48 in
        if cutoff <=? n then (maxVal, Some (rangeError "ParseUint" s0))
        else
          let n := uint64 (n * 10) in
          let n1 := uint64 (n + d) in
          if (n1 <? n) || (maxVal <? n1)
          then (maxVal, Some (rangeError "ParseUint" s0))
          else ParseUint_loop s0 maxVal s' n1
      else (0, Some (syntaxError "ParseUint" s0))
  end.

(** [ParseUint(s, 10, bitSize)] for [0 <= bitSize <= 64]. *)
Definition ParseUint (s : string) (bitSize : Z) : Z * option error :=
  if String.eqb s "" then (0, Some (syntaxError "ParseUint" s))
  else
    let bitSize := if bitSize =? 0 then intSize else bitSize in
    let maxVal := uint64 (uint64 (2 ^ bitSize) - 1) in
    ParseUint_loop s maxVal s 0.

(** [ParseInt(s, 10, bitSize)]. *)
Definition ParseInt (s : string) (bitSize : Z) : Z * option error :=
  match s with
  | "" => (0, Some (syntaxError "ParseInt" s))
  | String c s' =>
      let s0 := s in
      let '(neg, s) :=
        if Ascii.eqb c "+" then (false, s')
        else if Ascii.eqb c "-" then (true, s')
        else (false, s) in
      let '(un, err) := ParseUint s bitSize in
      match err with
      | Some (NumError _ _ ErrSyntax) => (0, Some (syntaxError "ParseInt" s0))
      | Some (errInvalidDuration _) | Some (errMissingUnit _)
      | Some (errUnknownUnit _ _) => (0, err)
      | Some (NumError _ _ ErrRange) | None =>
          let bitSize := if bitSize =? 0 then intSize else bitSize in
          let cutoff := 2 ^ (bitSize - 1) in
          if negb neg && (cutoff <=? un)
          then (cutoff - 1, Some (rangeError "ParseInt" s0))
          else if neg && (cutoff <? un)
          then (- cutoff, Some (rangeError "ParseInt" s0))
          else
            let n := int64 un in
            let n := if neg then int64 (- n) else n in
            (n, None)
      end
  end.

(** [strconv.Atoi]. *)
Definition Atoi (s : string) : Z * option error :=
  let sLen := len s in
  if (intSize =? 32) && ((0 <? sLen) && (sLen <? 10))
     || (intSize =? 64) && ((0 <? sLen) && (sLen <? 19))
  then
    (* fast path for small integers that fit the int type *)
    let s0 := s in
    let fast (s : string) (neg : bool) :=
      match Atoi_fast_loop s 0 with
      | None => (0, Some (syntaxError "Atoi" s0))
      | Some n => (if neg then - n else n, None)
      end in
    match s with
    | "" => (0, Some (syntaxError "Atoi" s0))
    | String c s' =>
        if Ascii.eqb c "-" || Ascii.eqb c "+" then
          if len s' <? 1 then (0, Some (syntaxError "Atoi" s0))
          else fast s' (Ascii.eqb c "-")
        else fast s false
    end
  else
    (* slow path for invalid, big, or underscored integers *)
    let '(i64, err) := ParseInt s 0 in
    let err :=
      match err with
      | Some (NumError _ num e) => Some (NumError "Atoi" num e)
      | _ => err
      end in
    (i64, err).

(** ** package time *)

(** A [Duration] is an [int64] count of nanoseconds. *)
Definition Nanosecond : Z := 1.
Definition Microsecond : Z := 1000 * Nanosecond.
Definition Millisecond : Z := 1000 * Microsecond.
Definition Second : Z := 1000 * Millisecond.
Definition Minute : Z := 60 * Second.
Definition Hour : Z := 60 * Minute.

(** The bytes of the two spellings of the micro sign in UTF-8. *)
Definition micro_sign : string :=
  String (ascii_of_nat 194) (String (ascii_of_nat 181) "").
Definition greek_mu : string :=
  String (ascii_of_nat 206) (String (ascii_of_nat 188) "").

(** [unitMap]; [None] when the key is not in the map. *)
Definition unitMap (u : string) : option Z :=
  if String.eqb u "ns" then Some Nanosecond
  else if String.eqb u "us" then Some Microsecond
  else if String.eqb u (micro_sign +:+ "s") then Some Microsecond
  else if String.eqb u (greek_mu +:+ "s") then Some Microsecond
  else if String.eqb u "ms" then Some Millisecond
  else if String.eqb u "s" then Some Second
  else if String.eqb u "m" then Some Minute
  else if String.eqb u "h" then Some Hour
  else None.

(** [leadingInt]: the leading [[0-9]*] of [s] as a number, and the rest of
    [s]; the boolean is [true] for [errLeadingInt], in which case the results
    are the zero values. [x] is the value accumulated so far. *)
Fixpoint leadingInt_loop (s : string) (x : Z) : Z * string * bool :=
  match s with
  | "" => (x, s, false)
  | String c s' =>
      if (byte c <? 48) || (57 <? byte c) then (x, s, false)
      else if 2 ^ 63 / 10 <? x then (0, "", true)
      else
        let x := uint64 (uint64 (uint64 (x * 10) + byte c) - 48) in
        if 2 ^ 63 <? x then (0, "", true)
        else leadingInt_loop s' x
  end.

Definition leadingInt (s : string) : Z * string * bool := leadingInt_loop s 0.

(** [float64(x)] for [x : uint64]: rounding to nearest, ties to even. *)
Definition float64_of_uint64 (x : Z) : float :=
  SF2Prim (binary_normalize prec emax x 0 false).

(** [uint64(f)] for a non-negative [f : float64] below [2^64]: truncation. *)
Definition uint64_of_float64 (f : float) : Z :=
  match Prim2SF f with
  | S754_finite false m e => Z.shiftl (Z.pos m) e
  | _ => 0
  end.

(** [leadingFraction]: the leading [[0-9]*] of [s] as the numerator [x] of a
    fraction [x / scale], and the rest of [s]. Digits that would overflow are
    read and dropped. *)
Fixpoint leadingFraction_loop (s : string) (x : Z) (scale : float)
  (overflow : bool) : Z * float * string :=
  match s with
  | "" => (x, scale, s)
  | String c s' =>
      if (byte c <? 48) || (57 <? byte c) then (x, scale, s)
      else if overflow then leadingFraction_loop s' x scale overflow
      else if (2 ^ 63 - 1) / 10 <? x
      then leadingFraction_loop s' x scale true
      else
        let y := uint64 (uint64 (uint64 (x * 10) + byte c) - 48) in
        if 2 ^ 63 <? y then leadingFraction_loop s' x scale true
        else leadingFraction_loop s' y (scale * 10)%float false
  end.

Definition leadingFraction (s : string) : Z * float * string :=
  leadingFraction_loop s 0 1%float false.

(** The scan for the unit: [s[:i]] and [s[i:]] for the first [i] at which
    [s[i]] is ['.'] or a digit. *)
Fixpoint unitSpan (s : string) : string * string :=
  match s with
  | "" => ("", "")
  | String c s' =>
      if Ascii.eqb c "." || isDigit c then ("", s)
      else let '(u, r) := unitSpan s' in (String c u, r)
  end.

(** One turn of the loop [for s != ""] of [ParseDuration], entered with a
    non-empty [s]: the new [s] and [d], or the error returned. *)
Definition ParseDuration_step (orig s : string) (d : Z)
  : error + string * Z :=
  match s with
  | "" => inl (errInvalidDuration orig)
  | String c _ =>
      (* the next character must be [0-9.] *)
      if negb (Ascii.eqb c "." || isDigit c)
      then inl (errInvalidDuration orig)
      else
        (* consume the leading digits *)
        let pl := len s in
        let '(v, s, err) := leadingInt s in
        if err then inl (errInvalidDuration orig)
        else
          let pre := negb (pl =? len s) in
          (* consume the optional fraction: a period and digits *)
          let '(f, scale, s, post) :=
            match s with
            | "" => (0, 1%float, s, false)
            | String c1 s1 =>
                if Ascii.eqb c1 "." then
                  let pl := len s1 in
                  let '(f, scale, s2) := leadingFraction s1 in
                  (f, scale, s2, negb (pl =? len s2))
                else (0, 1%float, s, false)
            end in
          if negb pre && negb post then inl (errInvalidDuration orig)
          else
            (* consume unit *)
            let '(u, s) := unitSpan s in
            if len u =? 0 then inl (errMissingUnit orig)
            else
              match unitMap u with
              | None => inl (errUnknownUnit u orig)
              | Some unit =>
                  if 2 ^ 63 / unit <? v then inl (errInvalidDuration orig)
                  else
                    let v := uint64 (v * unit) in
                    let '(v, overflow) :=
                      if 0 <? f then
                        (* float64 keeps fractions of hours accurate to the
                           nanosecond *)
                        let fraction :=
                          (float64_of_uint64 f
                           * (float64_of_uint64 unit / scale))%float in
                        let v := uint64 (v + uint64_of_float64 fraction) in
                        (v, 2 ^ 63 <? v)
                      else (v, false) in
                    if overflow then inl (errInvalidDuration orig)
                    else
                      let d := uint64 (d + v) in
                      if 2 ^ 63 <? d then inl (errInvalidDuration orig)
                      else inr (s, d)
              end
  end.

(** The loop [for s != ""]; [None] when [fuel] turns do not reach the end of
    the loop. *)
Fixpoint ParseDuration_loop (fuel : nat) (orig s : string) (d : Z)
  : option (error + Z) :=
  match s with
  | "" => Some (inr d)
  | _ =>
      match fuel with
      | O => None
      | S fuel =>
          match ParseDuration_step orig s d with
          | inl e => Some (inl e)
          | inr (s, d) => ParseDuration_loop fuel orig s d
          end
      end
  end.

(** [time.ParseDuration] run for [fuel] turns of its loop. *)
Definition ParseDuration_fuel (fuel : nat) (s : string)
  : option (Z * option error) :=
  let orig := s in
  (* consume the optional sign *)
  let '(neg, s) :=
    match s with
    | String c s' =>
        if Ascii.eqb c "-" || Ascii.eqb c "+" then (Ascii.eqb c "-", s')
        else (false, s)
    | "" => (false, s)
    end in
  (* special case: if all that is left is "0", this is zero *)
  if String.eqb s "0" then Some (0, None)
  else if String.eqb s "" then Some (0, Some (errInvalidDuration orig))
  else
    match ParseDuration_loop fuel orig s 0 with
    | None => None
    | Some (inl e) => Some (0, Some e)
    | Some (inr d) =>
        if neg then Some (int64 (- int64 d), None)
        else if 2 ^ 63 - 1 <? d then Some (0, Some (errInvalidDuration orig))
        else Some (int64 d, None)
    end.

(** [time.ParseDuration]. Every turn of the loop shortens [s], so as many
    turns as [s] has bytes reach the end (lemma [ParseDuration_fuel_enough]);
    the last case is not taken. *)
Definition ParseDuration (s : string) : Z * option error :=
  match ParseDuration_fuel (String.length s) s with
  | Some r => r
  | None => (0, Some (errInvalidDuration s))
  end.

(** ** package strings

    [Load] splits on [","], a separator of one byte; [Split], [genSplit],
    [Count] and [Index] are embedded for such a separator, which makes
    [Count] run [bytealg.CountString] and [Index] run [IndexByte]. *)

(** [bytealg.CountString(s, c)]: the number of bytes of [s] equal to [c]. *)
Fixpoint CountString (s : string) (c : ascii) : nat :=
  match s with
  | "" => O
  | String b s' =>
      if Ascii.eqb b c then S (CountString s' c) else CountString s' c
  end.

(** [IndexByte(s, c)]: the index of the first [c] in [s], or [-1]. *)
Fixpoint IndexByte (s : string) (c : ascii) : Z :=
  match s with
  | "" => -1
  | String b s' =>
      if Ascii.eqb b c then 0
      else let m := IndexByte s' c in if m <? 0 then -1 else m + 1
  end.

(** The slices [s[:m]] and [s[m:]]. *)
Definition slice_to (s : string) (m : Z) : string :=
  String.substring 0 (Z.to_nat m) s.
Definition slice_from (s : string) (m : Z) : string :=
  String.substring (Z.to_nat m) (String.length s - Z.to_nat m) s.

(** The loop of [genSplit], [k] being [n - i]: at most [k] more separators
    are cut, and the last element is what is left of [s]. *)
Fixpoint genSplit_loop (k : nat) (s : string) (sep : ascii) (sepSave : Z)
  : list string :=
  match k with
  | O => [s]
  | S k =>
      let m := IndexByte s sep in
      if m <? 0 then [s]
      else slice_to s (m + sepSave)
             :: genSplit_loop k (slice_from s (m + 1)) sep sepSave
  end.

(** [genSplit(s, sep, sepSave, n)] for [sep] of one byte. *)
Definition genSplit (s : string) (sep : ascii) (sepSave n : Z) : list string :=
  if n =? 0 then []
  else
    let n := if n <? 0 then Z.of_nat (CountString s sep) + 1 else n in
    let n := if len s + 1 <? n then len s + 1 else n in
    genSplit_loop (Z.to_nat (n - 1)) s sep sepSave.

(** [strings.Split(s, sep)]. *)
Definition Split (s : string) (sep : ascii) : list string :=
  genSplit s sep 0 (-1).

(** ** package config *)

Record AppConfig : Type := {
  App_Name : string;
  App_Environment : string;
  App_Host : string;
  App_Port : string;
  App_Origins : list string
}.

Record DatabaseConfig : Type := {
  Database_Host : string;
  Database_Port : string;
  Database_User : string;
  Database_Password : string;
  Database_Name : string;
  Database_SSLMode : string;
  Database_MaxConnections : Z;
  Database_MaxIdleTime : Z
}.

Record RedisConfig : Type := {
  Redis_Host : string;
  Redis_Port : string;
  Redis_Password : string;
  Redis_DB : Z
}.

Record JWTConfig : Type := {
  JWT_Secret : string;
  JWT_ExpiresIn : Z
}.

Record MediaConfig : Type := {
  Media_RootPath : string;
  Media_UploadPath : string;
  Media_PosterPath : string;
  Media_ThumbnailPath : string;
  Media_FFmpegPath : string;
  Media_MediaInfoPath : string
}.

Record ExternalConfig : Type := {
  External_TMDBAPIKey : string;
  External_OMDBAPIKey : string
}.

Record LoggingConfig : Type := {
  Logging_Level : string;
  Logging_Format : string
}.

Record Config : Type := {
  App : AppConfig;
  Database : DatabaseConfig;
  Redis : RedisConfig;
  JWT : JWTConfig;
  Media : MediaConfig;
  External : ExternalConfig;
  Logging : LoggingConfig
}.

(** [getEnv] gets an environment variable or returns a default value. *)
Definition getEnv (env : gmap string string) (key defaultValue : string)
  : string :=
  let value := Getenv env key in
  if negb (String.eqb value "") then value else defaultValue.

(** [getEnvAsInt] gets an environment variable as an integer or returns a
    default value. *)
Definition getEnvAsInt (env : gmap string string) (key : string)
  (defaultValue : Z) : Z :=
  let value := Getenv env key in
  if negb (String.eqb value "") then
    match Atoi value with
    | (intValue, None) => intValue
    | (_, Some _) => defaultValue
    end
  else defaultValue.

(** [getEnvAsDuration] gets an environment variable as a duration or returns
    a default value. *)
Definition getEnvAsDuration (env : gmap string string) (key : string)
  (defaultValue : Z) : Z :=
  let value := Getenv env key in
  if negb (String.eqb value "") then
    match ParseDuration value with
    | (duration, None) => duration
    | (_, Some _) => defaultValue
    end
  else defaultValue.

(** [Load] loads configuration from environment variables. The pointer it
    returns is to a fresh [Config] and is modelled by the record itself. *)
Definition Load (env : gmap string string) : Config * option error :=
  let config := {|
    App := {|
      App_Name := getEnv env "APP_NAME" "Flex Media Server";
      App_Environment := getEnv env "ENV" "development";
      App_Host := getEnv env "HOST" "0.0.0.0";
      App_Port := getEnv env "PORT" "8080";
      App_Origins :=
        Split (getEnv env "ALLOWED_ORIGINS" "http://localhost:3000") ","
    |};
    Database := {|
      Database_Host := getEnv env "DB_HOST" "localhost";
      Database_Port := getEnv env "DB_PORT" "5432";
      Database_User := getEnv env "DB_USER" "flex_user";
      Database_Password := getEnv env "DB_PASSWORD" "flex_password";
      Database_Name := getEnv env "DB_NAME" "flex_dev";
      Database_SSLMode := getEnv env "DB_SSLMODE" "disable";
      Database_MaxConnections := getEnvAsInt env "DB_MAX_CONNECTIONS" 25;
      Database_MaxIdleTime :=
        getEnvAsDuration env "DB_MAX_IDLE_TIME" (15 * Minute)
    |};
    Redis := {|
      Redis_Host := getEnv env "REDIS_HOST" "localhost";
      Redis_Port := getEnv env "REDIS_PORT" "6379";
      Redis_Password := getEnv env "REDIS_PASSWORD" "";
      Redis_DB := getEnvAsInt env "REDIS_DB" 0
    |};
    JWT := {|
      JWT_Secret := getEnv env "JWT_SECRET" "your-secret-key";
      JWT_ExpiresIn := getEnvAsDuration env "JWT_EXPIRES_IN" (24 * Hour)
    |};
    Media := {|
      Media_RootPath := getEnv env "MEDIA_ROOT_PATH" "/media/library";
      Media_UploadPath := getEnv env "UPLOAD_PATH" "/tmp/flex-uploads";
      Media_PosterPath := getEnv env "POSTER_PATH" "/tmp/flex-posters";
      Media_ThumbnailPath := getEnv env "THUMBNAIL_PATH" "/tmp/flex-thumbnails";
      Media_FFmpegPath := getEnv env "FFMPEG_PATH" "ffmpeg";
      Media_MediaInfoPath := getEnv env "MEDIAINFO_PATH" "mediainfo"
    |};
    External := {|
      External_TMDBAPIKey := getEnv env "TMDB_API_KEY" "";
      External_OMDBAPIKey := getEnv env "OMDB_API_KEY" ""
    |};
    Logging := {|
      Logging_Level := getEnv env "LOG_LEVEL" "info";
      Logging_Format := getEnv env "LOG_FORMAT" "console"
    |}
  |} in
  (config, None).

(** ** The specification's view of the snapshot

    One tag per row of the table of defaults (section 4.1 of the
    specification): the name of the variable, and the attribute of the
    snapshot the row stands for. *)

Inductive Field : Type :=
| APP_NAME | ENV | HOST | PORT | ALLOWED_ORIGINS
| DB_HOST | DB_PORT | DB_USER | DB_PASSWORD | DB_NAME | DB_SSLMODE
| DB_MAX_CONNECTIONS | DB_MAX_IDLE_TIME
| REDIS_HOST | REDIS_PORT | REDIS_PASSWORD | REDIS_DB
| JWT_SECRET | JWT_EXPIRES_IN
| MEDIA_ROOT_PATH | UPLOAD_PATH | POSTER_PATH | THUMBNAIL_PATH
| FFMPEG_PATH | MEDIAINFO_PATH
| TMDB_API_KEY | OMDB_API_KEY
| LOG_LEVEL | LOG_FORMAT.

Definition var_name (f : Field) : string :=
  match f with
  | APP_NAME => "APP_NAME" | ENV => "ENV" | HOST => "HOST" | PORT => "PORT"
  | ALLOWED_ORIGINS => "ALLOWED_ORIGINS"
  | DB_HOST => "DB_HOST" | DB_PORT => "DB_PORT" | DB_USER => "DB_USER"
  | DB_PASSWORD => "DB_PASSWORD" | DB_NAME => "DB_NAME"
  | DB_SSLMODE => "DB_SSLMODE"
  | DB_MAX_CONNECTIONS => "DB_MAX_CONNECTIONS"
  | DB_MAX_IDLE_TIME => "DB_MAX_IDLE_TIME"
  | REDIS_HOST => "REDIS_HOST" | REDIS_PORT => "REDIS_PORT"
  | REDIS_PASSWORD => "REDIS_PASSWORD" | REDIS_DB => "REDIS_DB"
  | JWT_SECRET => "JWT_SECRET" | JWT_EXPIRES_IN => "JWT_EXPIRES_IN"
  | MEDIA_ROOT_PATH => "MEDIA_ROOT_PATH" | UPLOAD_PATH => "UPLOAD_PATH"
  | POSTER_PATH => "POSTER_PATH" | THUMBNAIL_PATH => "THUMBNAIL_PATH"
  | FFMPEG_PATH => "FFMPEG_PATH" | MEDIAINFO_PATH => "MEDIAINFO_PATH"
  | TMDB_API_KEY => "TMDB_API_KEY" | OMDB_API_KEY => "OMDB_API_KEY"
  | LOG_LEVEL => "LOG_LEVEL" | LOG_FORMAT => "LOG_FORMAT"
  end.

(** The four semantic types of the attributes. *)
Inductive Value : Type :=
| VString (s : string)
| VInt (n : Z)
| VDuration (d : Z)
| VList (l : list string).

(** The attribute of the snapshot that a row of the table stands for. *)
Definition field_of (f : Field) (c : Config) : Value :=
  match f with
  | APP_NAME => VString (App_Name (App c))
  | ENV => VString (App_Environment (App c))
  | HOST => VString (App_Host (App c))
  | PORT => VString (App_Port (App c))
  | ALLOWED_ORIGINS => VList (App_Origins (App c))
  | DB_HOST => VString (Database_Host (Database c))
  | DB_PORT => VString (Database_Port (Database c))
  | DB_USER => VString (Database_User (Database c))
  | DB_PASSWORD => VString (Database_Password (Database c))
  | DB_NAME => VString (Database_Name (Database c))
  | DB_SSLMODE => VString (Database_SSLMode (Database c))
  | DB_MAX_CONNECTIONS => VInt (Database_MaxConnections (Database c))
  | DB_MAX_IDLE_TIME => VDuration (Database_MaxIdleTime (Database c))
  | REDIS_HOST => VString (Redis_Host (Redis c))
  | REDIS_PORT => VString (Redis_Port (Redis c))
  | REDIS_PASSWORD => VString (Redis_Password (Redis c))
  | REDIS_DB => VInt (Redis_DB (Redis c))
  | JWT_SECRET => VString (JWT_Secret (JWT c))
  | JWT_EXPIRES_IN => VDuration (JWT_ExpiresIn (JWT c))
  | MEDIA_ROOT_PATH => VString (Media_RootPath (Media c))
  | UPLOAD_PATH => VString (Media_UploadPath (Media c))
  | POSTER_PATH => VString (Media_PosterPath (Media c))
  | THUMBNAIL_PATH => VString (Media_ThumbnailPath (Media c))
  | FFMPEG_PATH => VString (Media_FFmpegPath (Media c))
  | MEDIAINFO_PATH => VString (Media_MediaInfoPath (Media c))
  | TMDB_API_KEY => VString (External_TMDBAPIKey (External c))
  | OMDB_API_KEY => VString (External_OMDBAPIKey (External c))
  | LOG_LEVEL => VString (Logging_Level (Logging c))
  | LOG_FORMAT => VString (Logging_Format (Logging c))
  end.

(** The table of defaults of the specification, durations in nanoseconds
    and the origins as the one-element list the specification gives for an
    unset variable. *)
Definition spec_defaults : Config := {|
  App := {|
    App_Name := "Flex Media Server";
    App_Environment := "development";
    App_Host := "0.0.0.0";
    App_Port := "8080";
    App_Origins := ["http://localhost:3000"]
  |};
  Database := {|
    Database_Host := "localhost";
    Database_Port := "5432";
    Database_User := "flex_user";
    Database_Password := "flex_password";
    Database_Name := "flex_dev";
    Database_SSLMode := "disable";
    Database_MaxConnections := 25;
    Database_MaxIdleTime := 15 * 60 * 1000000000
  |};
  Redis := {|
    Redis_Host := "localhost";
    Redis_Port := "6379";
    Redis_Password := "";
    Redis_DB := 0
  |};
  JWT := {|
    JWT_Secret := "your-secret-key";
    JWT_ExpiresIn := 24 * 3600 * 1000000000
  |};
  Media := {|
    Media_RootPath := "/media/library";
    Media_UploadPath := "/tmp/flex-uploads";
    Media_PosterPath := "/tmp/flex-posters";
    Media_ThumbnailPath := "/tmp/flex-thumbnails";
    Media_FFmpegPath := "ffmpeg";
    Media_MediaInfoPath := "mediainfo"
  |};
  External := {|
    External_TMDBAPIKey := "";
    External_OMDBAPIKey := ""
  |};
  Logging := {|
    Logging_Level := "info";
    Logging_Format := "console"
  |}
|}.

(** A string in base 10, in the specification's sense: an optional sign and
    at least one decimal digit. [decimal_digits s acc] is the number that the
    digits [s] denote after the digits read so far, whose number is [acc]. *)
Fixpoint decimal_digits (s : string) (acc : Z) : option Z :=
  match s with
  | "" => Some acc
  | String c s' =>
      if isDigit c then decimal_digits s' (acc * 10 + (byte c - 48)) else None
  end.

Definition decimal_unsigned (s : string) : option Z :=
  match s with
  | "" => None
  | _ => decimal_digits s 0
  end.

Definition decimal_integer (s : string) : option Z :=
  match s with
  | "" => None
  | String c s' =>
      if Ascii.eqb c "+" then decimal_unsigned s'
      else if Ascii.eqb c "-" then Z.opp <$> decimal_unsigned s'
      else decimal_unsigned s
  end.

(** Splitting on a byte, by recursion on the string: a separator closes the
    current element and opens a new one, every other byte goes to the
    current element as it is. *)
Fixpoint split_on (sep : ascii) (s : string) : list string :=
  match s with
  | "" => [""]
  | String b s' =>
      if Ascii.eqb b sep then "" :: split_on sep s'
      else
        match split_on sep s' with
        | x :: xs => String b x :: xs
        | [] => [String b ""]
        end
  end.

(** The elements of a list written one after the other with [sep] between
    them. *)
Fixpoint join (sep : ascii) (l : list string) : string :=
  match l with
  | [] => ""
  | [x] => x
  | x :: xs => x +:+ String sep (join sep xs)
  end.

(** An integer attribute resolved from variable [key] with default [dflt]:
    the parsed integer when the value parses, the default when the variable
    is missing or its value does not parse. *)
Definition resolves_int (env : gmap string string) (key : string) (dflt : Z)
  (field : Z) : Prop :=
  (∀ v n, env !! key = Some v → Atoi v = (n, None) → field = n)
  ∧ (env !! key = None → field = dflt)
  ∧ (∀ v n e, env !! key = Some v → Atoi v = (n, Some e) → field = dflt).

(** The same for a duration attribute. *)
Definition resolves_duration (env : gmap string string) (key : string)
  (dflt : Z) (field : Z) : Prop :=
  (∀ v d, env !! key = Some v → ParseDuration v = (d, None) → field = d)
  ∧ (env !! key = None → field = dflt)
  ∧ (∀ v d e, env !! key = Some v → ParseDuration v = (d, Some e) →
       field = dflt).

(** ** package main: [initLogger]

    [initLogger] fills a [zap.Config] and returns what its [Build] method
    returns. Package [go.uber.org/zap] is not part of the repository: the
    two profiles [NewProductionConfig] and [NewDevelopmentConfig], the
    method [Build], the fields of [zap.Config] that [initLogger] leaves
    alone and the type of what [Build] returns are parameters. *)

(** [zapcore.Level]. *)
Inductive zapcore_Level : Type :=
| DebugLevel | InfoLevel | WarnLevel | ErrorLevel
| DPanicLevel | PanicLevel | FatalLevel.

(** [zap.Config]: the two fields that [initLogger] assigns, and the others. *)
Record zap_Config (Others : Type) : Type := {
  zap_Level : zapcore_Level;
  zap_Encoding : string;
  zap_Others : Others
}.
Arguments zap_Level {Others} _.
Arguments zap_Encoding {Others} _.
Arguments zap_Others {Others} _.

Section initLogger.
Context {Others Built : Type}.
Variables NewProductionConfig NewDevelopmentConfig : zap_Config Others.
Variable Build : zap_Config Others → Built.

(** The assignment [config.Encoding = encoding]. *)
Definition set_Encoding (config : zap_Config Others) (encoding : string)
  : zap_Config Others :=
  {| zap_Level := zap_Level config;
     zap_Encoding := encoding;
     zap_Others := zap_Others config |}.

(** The assignment [config.Level = zap.NewAtomicLevelAt(level)]. *)
Definition set_Level (config : zap_Config Others) (level : zapcore_Level)
  : zap_Config Others :=
  {| zap_Level := level;
     zap_Encoding := zap_Encoding config;
     zap_Others := zap_Others config |}.

(** [initLogger] initializes the application logger. *)
Definition initLogger (environ : gmap string string) : Built :=
  let env := Getenv environ "ENV" in
  let logFormat := Getenv environ "LOG_FORMAT" in
  let config :=
    if String.eqb env "production" then NewProductionConfig
    else NewDevelopmentConfig in
  (* set log format *)
  let config :=
    if String.eqb logFormat "json" then set_Encoding config "json"
    else set_Encoding config "console" in
  (* set log level *)
  let logLevel := Getenv environ "LOG_LEVEL" in
  let config :=
    if String.eqb logLevel "debug" then set_Level config DebugLevel
    else if String.eqb logLevel "info" then set_Level config InfoLevel
    else if String.eqb logLevel "warn" then set_Level config WarnLevel
    else if String.eqb logLevel "error" then set_Level config ErrorLevel
    else set_Level config InfoLevel in
  Build config.
End initLogger.

(** ** Package [config] as a program on the process environment

    The same four functions once more, as the sequence of reads of the
    process environment that the code performs: a computation takes the
    environment it runs in and returns its result with the environment it
    leaves. [os.Getenv] is the one operation on the environment that
    package [config] calls, and the package has no variable of its own, so
    the environment is the whole state that a call of [Load] can see or
    change. *)

Definition Proc (A : Type) : Type :=
  gmap string string → A * gmap string string.

#[global] Instance Proc_ret : MRet Proc := λ A (a : A) environ, (a, environ).

#[global] Instance Proc_bind : MBind Proc :=
  λ A B (f : A → Proc B) (m : Proc A) environ,
    let '(a, environ') := m environ in f a environ'.

(** [os.Getenv(key)] as an operation of the process. *)
Definition os_Getenv (key : string) : Proc string :=
  λ environ, (Getenv environ key, environ).

Definition getEnvM (key defaultValue : string) : Proc string :=
  value ← os_Getenv key;
  mret (if negb (String.eqb value "") then value else defaultValue).

Definition getEnvAsIntM (key : string) (defaultValue : Z) : Proc Z :=
  value ← os_Getenv key;
  mret (if negb (String.eqb value "") then
          match Atoi value with
          | (intValue, None) => intValue
          | (_, Some _) => defaultValue
          end
        else defaultValue).

Definition getEnvAsDurationM (key : string) (defaultValue : Z) : Proc Z :=
  value ← os_Getenv key;
  mret (if negb (String.eqb value "") then
          match ParseDuration value with
          | (duration, None) => duration
          | (_, Some _) => defaultValue
          end
        else defaultValue).

(** [Load], the calls in the order of the fields of the literal. *)
Definition LoadM : Proc (Config * option error) :=
  app_name ← getEnvM "APP_NAME" "Flex Media Server";
  app_environment ← getEnvM "ENV" "development";
  app_host ← getEnvM "HOST" "0.0.0.0";
  app_port ← getEnvM "PORT" "8080";
  app_origins ← getEnvM "ALLOWED_ORIGINS" "http://localhost:3000";
  db_host ← getEnvM "DB_HOST" "localhost";
  db_port ← getEnvM "DB_PORT" "5432";
  db_user ← getEnvM "DB_USER" "flex_user";
  db_password ← getEnvM "DB_PASSWORD" "flex_password";
  db_name ← getEnvM "DB_NAME" "flex_dev";
  db_sslmode ← getEnvM "DB_SSLMODE" "disable";
  db_max_connections ← getEnvAsIntM "DB_MAX_CONNECTIONS" 25;
  db_max_idle_time ← getEnvAsDurationM "DB_MAX_IDLE_TIME" (15 * Minute);
  redis_host ← getEnvM "REDIS_HOST" "localhost";
  redis_port ← getEnvM "REDIS_PORT" "6379";
  redis_password ← getEnvM "REDIS_PASSWORD" "";
  redis_db ← getEnvAsIntM "REDIS_DB" 0;
  jwt_secret ← getEnvM "JWT_SECRET" "your-secret-key";
  jwt_expires_in ← getEnvAsDurationM "JWT_EXPIRES_IN" (24 * Hour);
  media_root_path ← getEnvM "MEDIA_ROOT_PATH" "/media/library";
  media_upload_path ← getEnvM "UPLOAD_PATH" "/tmp/flex-uploads";
  media_poster_path ← getEnvM "POSTER_PATH" "/tmp/flex-posters";
  media_thumbnail_path ← getEnvM "THUMBNAIL_PATH" "/tmp/flex-thumbnails";
  media_ffmpeg_path ← getEnvM "FFMPEG_PATH" "ffmpeg";
  media_mediainfo_path ← getEnvM "MEDIAINFO_PATH" "mediainfo";
  external_tmdb ← getEnvM "TMDB_API_KEY" "";
  external_omdb ← getEnvM "OMDB_API_KEY" "";
  logging_level ← getEnvM "LOG_LEVEL" "info";
  logging_format ← getEnvM "LOG_FORMAT" "console";
  let config := {|
    App := {|
      App_Name := app_name;
      App_Environment := app_environment;
      App_Host := app_host;
      App_Port := app_port;
      App_Origins := Split app_origins ","
    |};
    Database := {|
      Database_Host := db_host;
      Database_Port := db_port;
      Database_User := db_user;
      Database_Password := db_password;
      Database_Name := db_name;
      Database_SSLMode := db_sslmode;
      Database_MaxConnections := db_max_connections;
      Database_MaxIdleTime := db_max_idle_time
    |};
    Redis := {|
      Redis_Host := redis_host;
      Redis_Port := redis_port;
      Redis_Password := redis_password;
      Redis_DB := redis_db
    |};
    JWT := {|
      JWT_Secret := jwt_secret;
      JWT_ExpiresIn := jwt_expires_in
    |};
    Media := {|
      Media_RootPath := media_root_path;
      Media_UploadPath := media_upload_path;
      Media_PosterPath := media_poster_path;
      Media_ThumbnailPath := media_thumbnail_path;
      Media_FFmpegPath := media_ffmpeg_path;
      Media_MediaInfoPath := media_mediainfo_path
    |};
    External := {|
      External_TMDBAPIKey := external_tmdb;
      External_OMDBAPIKey := external_omdb
    |};
    Logging := {|
      Logging_Level := logging_level;
      Logging_Format := logging_format
    |}
  |} in
  mret (config, None).

(** ** The resolution of one row, in the words of the specification

    Section 4.1: a string row is the value of its variable when the variable
    is present and not empty, and the default otherwise; an integer row is
    the base-10 parse of the value when the variable is present and the
    parse succeeds, and the default otherwise; a duration row likewise with
    the duration grammar; the list row is the value split on the comma when
    the variable is present and not empty, and the default list otherwise. *)
Definition spec_resolve (env : gmap string string) (f : Field) : Value :=
  let value := env !! var_name f in
  match field_of f spec_defaults with
  | VString dflt =>
      VString match value with
              | Some v => if String.eqb v "" then dflt else v
              | None => dflt
              end
  | VInt dflt =>
      VInt match value with
           | Some v =>
               match Atoi v with
               | (n, None) => n
               | (_, Some _) => dflt
               end
           | None => dflt
           end
  | VDuration dflt =>
      VDuration match value with
                | Some v =>
                    match ParseDuration v with
                    | (d, None) => d
                    | (_, Some _) => dflt
                    end
                | None => dflt
                end
  | VList dflt =>
      VList match value with
            | Some v => if String.eqb v "" then dflt else Split v ","
            | None => dflt
            end
  end.

(** The level that a name of the snapshot stands for, [info] standing in
    for every name other than the four of the specification. *)
Definition level_named (name : string) : zapcore_Level :=
  if String.eqb name "debug" then DebugLevel
  else if String.eqb name "warn" then WarnLevel
  else if String.eqb name "error" then ErrorLevel
  else InfoLevel.

(** ** Vocabulary for the properties of the resolved values *)

(** The bytes of a string. *)
Fixpoint bytes_of (s : string) : list ascii :=
  match s with
  | "" => []
  | String c s' => c :: bytes_of s'
  end.

(** A duration written as terms, each a decimal magnitude and a unit, one
    after the other: the string, and the sum of the terms in nanoseconds
    ([None] when a magnitude is not a decimal number or a unit is not in
    [unitMap]). *)
Fixpoint render_terms (terms : list (string * string)) : string :=
  match terms with
  | [] => ""
  | (ds, u) :: terms => ds +:+ u +:+ render_terms terms
  end.

Fixpoint terms_value (terms : list (string * string)) : option Z :=
  match terms with
  | [] => Some 0
  | (ds, u) :: terms =>
      match decimal_unsigned ds, unitMap u, terms_value terms with
      | Some n, Some unit, Some rest => Some (n * unit + rest)
      | _, _, _ => None
      end
  end.

(** No byte of the string is a digit or a period. *)
Fixpoint no_digit_or_period (s : string) : bool :=
  match s with
  | "" => true
  | String c s' => negb (Ascii.eqb c "." || isDigit c) && no_digit_or_period s'
  end.

(** Where the scan for a unit stops: at the end of the string, or at a
    digit or a period. *)
Definition at_unit_end (s : string) : Prop :=
  match s with
  | "" => True
  | String c _ => Ascii.eqb c "." || isDigit c = true
  end.

(** The string starts with [sep], ends with [sep], has [sep] twice in a
    row. *)
Definition starts_with (sep : ascii) (s : string) : bool :=
  match s with
  | "" => false
  | String b _ => Ascii.eqb b sep
  end.

Fixpoint ends_with (sep : ascii) (s : string) : bool :=
  match s with
  | "" => false
  | String b "" => Ascii.eqb b sep
  | String _ s' => ends_with sep s'
  end.

Fixpoint has_double (sep : ascii) (s : string) : bool :=
  match s with
  | "" => false
  | String b s' => (Ascii.eqb b sep && starts_with sep s') || has_double sep s'
  end.

(** The rest of a string after its leading digits: empty, or starting with
    a byte that is not a digit. *)
Definition no_leading_digit (s : string) : Prop :=
  match s with
  | "" => True
  | String c _ => isDigit c = false
  end.

(** * Properties *)

(** ** Helper lemmas on the resolution of one variable *)

Lemma Getenv_lookup_Some (env : gmap string string) key v :
  env !! key = Some v → Getenv env key = v.
Proof. unfold Getenv. by intros ->. Qed.

Lemma Getenv_lookup_None (env : gmap string string) key :
  env !! key = None → Getenv env key = "".
Proof. unfold Getenv. by intros ->. Qed.

Lemma Getenv_agree (env1 env2 : gmap string string) key :
  env1 !! key = env2 !! key → Getenv env1 key = Getenv env2 key.
Proof. unfold Getenv. by intros ->. Qed.

Lemma getEnv_set env key dflt :
  Getenv env key ≠ "" → getEnv env key dflt = Getenv env key.
Proof.
  intros Hne. unfold getEnv.
  destruct (String.eqb_spec (Getenv env key) ""); [contradiction | reflexivity].
Qed.

Lemma getEnv_unset env key dflt :
  Getenv env key = "" → getEnv env key dflt = dflt.
Proof. unfold getEnv. by intros ->. Qed.

Lemma getEnvAsInt_unset env key dflt :
  Getenv env key = "" → getEnvAsInt env key dflt = dflt.
Proof. unfold getEnvAsInt. by intros ->. Qed.

Lemma getEnvAsDuration_unset env key dflt :
  Getenv env key = "" → getEnvAsDuration env key dflt = dflt.
Proof. unfold getEnvAsDuration. by intros ->. Qed.

Lemma Atoi_empty : Atoi "" = (0, Some (NumError "Atoi" "" ErrSyntax)).
Proof. reflexivity. Qed.

Lemma ParseDuration_empty :
  ParseDuration "" = (0, Some (errInvalidDuration "")).
Proof. reflexivity. Qed.

Lemma getEnvAsInt_parsed env key dflt n :
  Atoi (Getenv env key) = (n, None) → getEnvAsInt env key dflt = n.
Proof.
  intros Hp. unfold getEnvAsInt.
  destruct (String.eqb_spec (Getenv env key) "") as [He | _]; simpl.
  - rewrite He, Atoi_empty in Hp. discriminate.
  - by rewrite Hp.
Qed.

Lemma getEnvAsInt_failed env key dflt n e :
  Atoi (Getenv env key) = (n, Some e) → getEnvAsInt env key dflt = dflt.
Proof.
  intros Hp. unfold getEnvAsInt. rewrite Hp. by destruct (negb _).
Qed.

Lemma getEnvAsDuration_parsed env key dflt d :
  ParseDuration (Getenv env key) = (d, None) →
  getEnvAsDuration env key dflt = d.
Proof.
  intros Hp. unfold getEnvAsDuration.
  destruct (String.eqb_spec (Getenv env key) "") as [He | _]; simpl.
  - rewrite He, ParseDuration_empty in Hp. discriminate.
  - by rewrite Hp.
Qed.

Lemma getEnvAsDuration_failed env key dflt d e :
  ParseDuration (Getenv env key) = (d, Some e) →
  getEnvAsDuration env key dflt = dflt.
Proof.
  intros Hp. unfold getEnvAsDuration. rewrite Hp. by destruct (negb _).
Qed.

Lemma getEnvAsInt_resolves env key dflt :
  resolves_int env key dflt (getEnvAsInt env key dflt).
Proof.
  repeat split.
  - intros v n Hv Hp. apply getEnvAsInt_parsed.
    by rewrite (Getenv_lookup_Some _ _ _ Hv).
  - intros Hv. by apply getEnvAsInt_unset, Getenv_lookup_None.
  - intros v n e Hv Hp. apply (getEnvAsInt_failed _ _ _ n e).
    by rewrite (Getenv_lookup_Some _ _ _ Hv).
Qed.

Lemma getEnvAsDuration_resolves env key dflt :
  resolves_duration env key dflt (getEnvAsDuration env key dflt).
Proof.
  repeat split.
  - intros v n Hv Hp. apply getEnvAsDuration_parsed.
    by rewrite (Getenv_lookup_Some _ _ _ Hv).
  - intros Hv. by apply getEnvAsDuration_unset, Getenv_lookup_None.
  - intros v n e Hv Hp. apply (getEnvAsDuration_failed _ _ _ n e).
    by rewrite (Getenv_lookup_Some _ _ _ Hv).
Qed.

(** ** [strings.Split] on one byte *)

Lemma IndexByte_ge s c : -1 ≤ IndexByte s c.
Proof.
  induction s as [| b s IH]; simpl; [lia |].
  destruct (Ascii.eqb b c); [lia |].
  destruct (Z.ltb_spec (IndexByte s c) 0); lia.
Qed.

Lemma CountString_le_length s c : (CountString s c ≤ String.length s)%nat.
Proof.
  induction s as [| b s IH]; simpl; [lia |].
  destruct (Ascii.eqb b c); lia.
Qed.

Lemma slice_to_0 s : slice_to s 0 = "".
Proof. unfold slice_to. by destruct s. Qed.

Lemma substring_all s : String.substring 0 (String.length s) s = s.
Proof. induction s as [| b s IH]; simpl; [done | by rewrite IH]. Qed.

Lemma slice_from_0 s : slice_from s 0 = s.
Proof.
  unfold slice_from. simpl. rewrite Nat.sub_0_r. apply substring_all.
Qed.

Lemma slice_to_cons b s m :
  0 ≤ m → slice_to (String b s) (m + 1) = String b (slice_to s m).
Proof.
  intros Hm. unfold slice_to.
  replace (Z.to_nat (m + 1)) with (S (Z.to_nat m)) by lia. reflexivity.
Qed.

Lemma slice_from_cons b s m :
  0 ≤ m → slice_from (String b s) (m + 1) = slice_from s m.
Proof.
  intros Hm. unfold slice_from.
  replace (Z.to_nat (m + 1)) with (S (Z.to_nat m)) by lia. reflexivity.
Qed.

Lemma split_on_no_sep s c : IndexByte s c < 0 → split_on c s = [s].
Proof.
  induction s as [| b s IH]; simpl; [done |].
  destruct (Ascii.eqb b c); [lia |].
  destruct (Z.ltb_spec (IndexByte s c) 0) as [Hlt | Hge].
  - intros _. by rewrite (IH Hlt).
  - pose proof (IndexByte_ge s c). lia.
Qed.

Lemma genSplit_loop_split_on c s :
  ∀ k, (CountString s c ≤ k)%nat → genSplit_loop k s c 0 = split_on c s.
Proof.
  induction s as [| b s IH]; intros k Hk.
  - by destruct k.
  - simpl in Hk. destruct k as [| k].
    + (* no separator is left in [s] *)
      simpl. destruct (Ascii.eqb b c) eqn:Hb; [lia |].
      specialize (IH O Hk). simpl in IH. by rewrite <- IH.
    + cbn [genSplit_loop]. simpl IndexByte. simpl split_on.
      destruct (Ascii.eqb b c) eqn:Hb.
      * change (0 <? 0) with false. cbn iota.
        rewrite Z.add_0_r, slice_to_0.
        rewrite (slice_from_cons b s 0), slice_from_0 by lia.
        f_equal. apply IH. lia.
      * specialize (IH (S k) Hk). cbn [genSplit_loop] in IH.
        pose proof (IndexByte_ge s c) as Hge.
        destruct (Z.ltb_spec (IndexByte s c) 0) as [Hlt | Hnn].
        -- change (-1 <? 0) with true. cbn iota. by rewrite <- IH.
        -- destruct (Z.ltb_spec (IndexByte s c + 1) 0); [lia |].
           rewrite <- IH. rewrite !Z.add_0_r.
           rewrite slice_to_cons, slice_from_cons by lia.
           reflexivity.
Qed.

Lemma Split_split_on s c : Split s c = split_on c s.
Proof.
  unfold Split, genSplit. change (-1 =? 0) with false.
  change (-1 <? 0) with true. cbn iota.
  pose proof (CountString_le_length s c) as Hle.
  destruct (Z.ltb_spec (len s + 1) (Z.of_nat (CountString s c) + 1)) as [H | _].
  - unfold len in H. lia.
  - apply genSplit_loop_split_on. lia.
Qed.

Lemma split_on_not_nil c s : split_on c s ≠ [].
Proof.
  destruct s as [| b s]; simpl; [done |].
  destruct (Ascii.eqb b c); [done |]. by destruct (split_on c s).
Qed.

Lemma join_cons_String c b x xs :
  join c (String b x :: xs) = String b (join c (x :: xs)).
Proof. by destruct xs. Qed.

Lemma join_split_on c s : join c (split_on c s) = s.
Proof.
  induction s as [| b s IH]; simpl; [done |].
  pose proof (split_on_not_nil c s) as Hnil.
  destruct (split_on c s) as [| x xs] eqn:E; [done |].
  destruct (Ascii.eqb_spec b c) as [-> | Hne].
  - change (join c ("" :: x :: xs)) with (String c (join c (x :: xs))).
    by rewrite IH.
  - by rewrite join_cons_String, IH.
Qed.

Lemma split_on_elements_no_sep c s :
  Forall (λ x, CountString x c = O) (split_on c s).
Proof.
  induction s as [| b s IH]; simpl.
  - by repeat constructor.
  - destruct (Ascii.eqb b c) eqn:Hb.
    + by constructor.
    + destruct (split_on c s) as [| x xs]; simpl.
      * repeat constructor. simpl. by rewrite Hb.
      * inversion IH; subst. constructor; [| done]. simpl. by rewrite Hb.
Qed.

Lemma split_on_length c s :
  length (split_on c s) = S (CountString s c).
Proof.
  induction s as [| b s IH]; simpl; [done |].
  destruct (Ascii.eqb b c); simpl; [by rewrite IH |].
  destruct (split_on c s); simpl in *; lia.
Qed.

(** ** [time.ParseDuration] reaches the end of its loop *)

Lemma leadingInt_loop_rest s :
  ∀ x, (String.length (leadingInt_loop s x).1.2 ≤ String.length s)%nat.
Proof.
  induction s as [| c s IH]; intros x; simpl; [lia |].
  destruct (_ || _); simpl; [lia |].
  destruct (_ <? x); simpl; [lia |].
  destruct (2 ^ 63 <? _); simpl; [lia |].
  specialize (IH (uint64 (uint64 (uint64 (x * 10) + byte c) - 48))). lia.
Qed.

Lemma leadingFraction_loop_rest s :
  ∀ x scale overflow,
    (String.length (leadingFraction_loop s x scale overflow).2
     ≤ String.length s)%nat.
Proof.
  induction s as [| c s IH]; intros x scale overflow; simpl; [lia |].
  destruct (_ || _); simpl; [lia |].
  destruct overflow; [specialize (IH x scale true); lia |].
  destruct (_ <? x); [specialize (IH x scale true); lia |].
  destruct (2 ^ 63 <? _); [specialize (IH x scale true); lia |].
  match goal with
  | |- (String.length (leadingFraction_loop s ?y ?sc ?o).2 ≤ _)%nat =>
      specialize (IH y sc o); lia
  end.
Qed.

Lemma unitSpan_length s :
  String.length s
  = (String.length (unitSpan s).1 + String.length (unitSpan s).2)%nat.
Proof.
  induction s as [| c s IH]; simpl; [done |].
  destruct (_ || _); simpl; [done |].
  destruct (unitSpan s) as [u r]. simpl in *. lia.
Qed.

Lemma ParseDuration_step_shorter orig s d s' d' :
  ParseDuration_step orig s d = inr (s', d') →
  (String.length s' < String.length s)%nat.
Proof.
  unfold ParseDuration_step. destruct s as [| c s0]; [done |].
  destruct (negb _); [done |].
  unfold leadingInt.
  pose proof (leadingInt_loop_rest (String c s0) 0) as Hint.
  destruct (leadingInt_loop (String c s0) 0) as [[v s1] err].
  simpl in Hint. destruct err; [done |].
  set (frac := match s1 with "" => _ | String c1 s2 => _ end).
  assert (Hfrac : (String.length frac.1.2 ≤ String.length s1)%nat).
  { subst frac. destruct s1 as [| c1 s2]; simpl; [lia |].
    destruct (Ascii.eqb c1 "."); simpl; [| lia].
    unfold leadingFraction.
    pose proof (leadingFraction_loop_rest s2 0 1%float false) as Hf.
    destruct (leadingFraction_loop s2 0 1%float false) as [[f scale] s3].
    simpl in *. lia. }
  destruct frac as [[[f scale] s2] post]. simpl in Hfrac.
  destruct (_ && _); [done |].
  pose proof (unitSpan_length s2) as Hunit.
  destruct (unitSpan s2) as [u s3]. simpl in Hunit.
  destruct (Z.eqb_spec (len u) 0) as [| Hu]; [done |].
  destruct (unitMap u) as [unit |]; [| done].
  destruct (_ <? v); [done |].
  destruct (if 0 <? f then _ else _) as [v1 overflow].
  destruct overflow; [done |].
  destruct (2 ^ 63 <? _); [done |].
  intros [= <- <-]. unfold len in Hu. simpl. lia.
Qed.

Lemma ParseDuration_loop_enough orig :
  ∀ fuel s d, (String.length s ≤ fuel)%nat →
    ∃ r, ParseDuration_loop fuel orig s d = Some r.
Proof.
  induction fuel as [| fuel IH]; intros s d Hlen.
  - destruct s; [by eexists | simpl in Hlen; lia].
  - destruct s as [| c s]; [by eexists |].
    cbn [ParseDuration_loop].
    destruct (ParseDuration_step orig (String c s) d) as [e | [s' d']] eqn:E;
      [by eexists |].
    apply ParseDuration_step_shorter in E. apply IH. lia.
Qed.

Lemma ParseDuration_loop_more orig :
  ∀ fuel fuel' s d r, (fuel ≤ fuel')%nat →
    ParseDuration_loop fuel orig s d = Some r →
    ParseDuration_loop fuel' orig s d = Some r.
Proof.
  induction fuel as [| fuel IH]; intros fuel' s d r Hle.
  - destruct s; [| done]. by destruct fuel'.
  - destruct fuel' as [| fuel']; [lia |].
    destruct s as [| c s]; [done |]. cbn [ParseDuration_loop].
    destruct (ParseDuration_step orig (String c s) d) as [e | [s' d']];
      [done |].
    apply IH. lia.
Qed.

(** With at least as many turns as the string has bytes, the loop of
    [ParseDuration] ends, and the result is that of [ParseDuration]. *)
Lemma ParseDuration_fuel_enough s fuel :
  (String.length s ≤ fuel)%nat →
  ParseDuration_fuel fuel s = Some (ParseDuration s).
Proof.
  intros Hfuel.
  assert (Hsome : ∀ n, (String.length s ≤ n)%nat →
            ∃ r, ParseDuration_fuel n s = Some r).
  { intros n Hn. unfold ParseDuration_fuel.
    set (sg := match s with "" => _ | String c s' => _ end).
    assert (Hsg : (String.length sg.2 ≤ String.length s)%nat).
    { subst sg. destruct s as [| c s']; simpl; [lia |].
      destruct (_ || _); simpl; lia. }
    destruct sg as [neg s1]. simpl in Hsg.
    destruct (String.eqb s1 "0"); [by eexists |].
    destruct (String.eqb s1 ""); [by eexists |].
    destruct (ParseDuration_loop_enough s n s1 0) as [r Hr]; [lia |].
    rewrite Hr. destruct r as [e | d]; [by eexists |].
    destruct neg; [by eexists |]. destruct (_ <? d); by eexists. }
  assert (Hmore : ∀ n r, (String.length s ≤ n)%nat →
            ParseDuration_fuel (String.length s) s = Some r →
            ParseDuration_fuel n s = Some r).
  { intros n r Hn. unfold ParseDuration_fuel.
    destruct (match s with "" => _ | String c s' => _ end) as [neg s1].
    destruct (String.eqb s1 "0"); [done |].
    destruct (String.eqb s1 ""); [done |].
    destruct (ParseDuration_loop (String.length s) s s1 0) as [r1 |] eqn:E;
      [| done].
    by rewrite (ParseDuration_loop_more s _ n _ _ _ Hn E). }
  destruct (Hsome _ (Nat.le_refl _)) as [r Hr].
  unfold ParseDuration. rewrite Hr. by apply Hmore.
Qed.

(** ** [strconv.Atoi] accepts the decimal integers of the [int] range *)

Lemma byte_range c : 0 ≤ byte c < 256.
Proof.
  unfold byte. pose proof (N_ascii_bounded c). lia.
Qed.

Lemma isDigit_spec c : isDigit c = true ↔ 48 ≤ byte c ≤ 57.
Proof. unfold isDigit. rewrite andb_true_iff, !Z.leb_le. tauto. Qed.

Lemma fast_path_digit c :
  (9 <? uint8 (byte c - 48)) = negb (isDigit c).
Proof.
  pose proof (byte_range c) as Hc. unfold isDigit, uint8.
  change (2 ^ 8) with 256.
  destruct (Z.leb_spec 48 (byte c)) as [Hlo | Hlo]; simpl.
  - rewrite Z.mod_small by lia.
    destruct (Z.leb_spec (byte c) 57); simpl; lia.
  - replace (byte c - 48) with (byte c + 208 + (-1) * 256) by lia.
    rewrite Z.mod_add, Z.mod_small by lia. lia.
Qed.

Lemma fast_path_value c :
  isDigit c = true → uint8 (byte c - 48) = byte c - 48.
Proof.
  intros H%isDigit_spec. unfold uint8. apply Z.mod_small.
  change (2 ^ 8) with 256. lia.
Qed.

Lemma Atoi_fast_loop_decimal s : ∀ n, Atoi_fast_loop s n = decimal_digits s n.
Proof.
  induction s as [| c s IH]; intros n; simpl; [done |].
  rewrite fast_path_digit. destruct (isDigit c) eqn:Hd; simpl; [| done].
  by rewrite fast_path_value, IH.
Qed.

Lemma decimal_digits_bounds s :
  ∀ acc v, 0 ≤ acc → decimal_digits s acc = Some v →
    acc * 10 ^ len s ≤ v < (acc + 1) * 10 ^ len s.
Proof.
  induction s as [| c s IH]; intros acc v Hacc; simpl.
  - intros [= <-]. change (len "") with 0. lia.
  - destruct (isDigit c) eqn:Hd; [| done]. apply isDigit_spec in Hd.
    intros Hv. apply IH in Hv; [| lia].
    replace (len (String c s)) with (len s + 1)
      by (unfold len; simpl; lia).
    assert (0 ≤ len s) by (unfold len; lia).
    rewrite Z.pow_add_r by lia. change (10 ^ 1) with 10.
    assert (0 < 10 ^ len s) by (apply Z.pow_pos_nonneg; lia).
    nia.
Qed.

Lemma decimal_digits_ge s acc v :
  0 ≤ acc → decimal_digits s acc = Some v → acc ≤ v.
Proof.
  intros Hacc Hv. pose proof (decimal_digits_bounds s acc v Hacc Hv).
  assert (0 ≤ len s) by (unfold len; lia).
  assert (0 < 10 ^ len s) by (apply Z.pow_pos_nonneg; lia).
  nia.
Qed.

Lemma decimal_digits_short s v :
  len s < 19 → decimal_digits s 0 = Some v → 0 ≤ v < 10 ^ 18.
Proof.
  intros Hlen Hv. pose proof (decimal_digits_bounds s 0 v (Z.le_refl 0) Hv).
  assert (0 ≤ len s) by (unfold len; lia).
  assert (10 ^ len s ≤ 10 ^ 18) by (apply Z.pow_le_mono_r; lia).
  lia.
Qed.

Lemma uint64_small z : 0 ≤ z < 2 ^ 64 → uint64 z = z.
Proof. intros H. unfold uint64. by apply Z.mod_small. Qed.

Lemma uint64_wrap z : 2 ^ 64 ≤ z < 2 * 2 ^ 64 → uint64 z = z - 2 ^ 64.
Proof.
  intros H. unfold uint64.
  replace z with (z - 2 ^ 64 + 1 * 2 ^ 64) at 1 by lia.
  rewrite Z.mod_add by lia. apply Z.mod_small. lia.
Qed.

Lemma ParseUint_loop_spec s0 s :
  ∀ n, 0 ≤ n ≤ 2 ^ 64 - 1 →
    match decimal_digits s n with
    | Some v =>
        ParseUint_loop s0 (2 ^ 64 - 1) s n
        = if v <=? 2 ^ 64 - 1 then (v, None)
          else (2 ^ 64 - 1, Some (rangeError "ParseUint" s0))
    | None =>
        ∃ un e, ParseUint_loop s0 (2 ^ 64 - 1) s n
                = (un, Some (NumError "ParseUint" s0 e))
                ∧ (e = ErrRange → un = 2 ^ 64 - 1)
    end.
Proof.
  induction s as [| c s IH]; intros n Hn.
  - simpl. destruct (Z.leb_spec n (2 ^ 64 - 1)); [done | lia].
  - cbn [decimal_digits ParseUint_loop].
    destruct (isDigit c) eqn:Hd; [| by eexists _, ErrSyntax].
    apply isDigit_spec in Hd.
    change ((2 ^ 64 - 1) / 10 + 1) with 1844674407370955162.
    destruct (Z.leb_spec 1844674407370955162 n) as [Hcut | Hcut].
    { (* n * 10 is above the largest uint64 *)
      destruct (decimal_digits s _) as [v |] eqn:Hv.
      - apply decimal_digits_ge in Hv; [| lia].
        destruct (Z.leb_spec v (2 ^ 64 - 1)); [lia | done].
      - by eexists _, ErrRange. }
    rewrite (uint64_small (n * 10)) by lia.
    destruct (Z_lt_le_dec (n * 10 + (byte c - 48)) (2 ^ 64)) as [Hfit | Hover].
    + rewrite (uint64_small (n * 10 + _)) by lia.
      destruct (Z.ltb_spec (n * 10 + (byte c - 48)) (n * 10)); [lia |].
      destruct (Z.ltb_spec (2 ^ 64 - 1) (n * 10 + (byte c - 48))); [lia |].
      simpl. apply IH. lia.
    + rewrite (uint64_wrap (n * 10 + _)) by lia.
      destruct (Z.ltb_spec (n * 10 + (byte c - 48) - 2 ^ 64) (n * 10));
        [| lia].
      simpl. destruct (decimal_digits s _) as [v |] eqn:Hv.
      * apply decimal_digits_ge in Hv; [| lia].
        destruct (Z.leb_spec v (2 ^ 64 - 1)); [lia | done].
      * by eexists _, ErrRange.
Qed.

Lemma int64_small z : - 2 ^ 63 ≤ z < 2 ^ 63 → int64 z = z.
Proof.
  intros H. unfold int64. rewrite Z.mod_small; lia.
Qed.

Lemma int64_min : int64 (2 ^ 63) = - 2 ^ 63.
Proof. reflexivity. Qed.

Lemma decimal_unsigned_digits s :
  s ≠ "" → decimal_unsigned s = decimal_digits s 0.
Proof. by destruct s. Qed.

(** [ParseUint(s, 10, 0)] against the decimal reading of [s]. *)
Lemma ParseUint_spec s :
  match decimal_unsigned s with
  | Some v =>
      ParseUint s 0
      = if v <=? 2 ^ 64 - 1 then (v, None)
        else (2 ^ 64 - 1, Some (rangeError "ParseUint" s))
  | None =>
      ∃ un e, ParseUint s 0 = (un, Some (NumError "ParseUint" s e))
              ∧ (e = ErrRange → un = 2 ^ 64 - 1)
  end.
Proof.
  unfold ParseUint. destruct (String.eqb_spec s "") as [-> | Hne].
  - simpl. by eexists _, ErrSyntax.
  - rewrite decimal_unsigned_digits by done.
    change (uint64 (uint64 (2 ^ (if 0 =? 0 then intSize else 0)) - 1))
      with (2 ^ 64 - 1).
    apply ParseUint_loop_spec. lia.
Qed.

(** The two ends of the proofs below: the parser returned [v] (possibly
    negated) and [v] is in range, or it returned an error and the decimal
    reading is out of range. *)
Local Ltac parsed_in_range :=
  split; [intros [= <-]; split; [done | lia] | by intros [[= <-] _]].
Local Ltac parsed_out_of_range :=
  split; [done | intros [[= <-] ?]; lia].

Lemma ParseInt_spec s n :
  ParseInt s 0 = (n, None)
  ↔ decimal_integer s = Some n ∧ - 2 ^ 63 ≤ n ≤ 2 ^ 63 - 1.
Proof.
  destruct s as [| c s]; [simpl; split; [done | by intros [? _]] |].
  unfold ParseInt, decimal_integer.
  set (sg := if Ascii.eqb c "+" then _ else _).
  assert (Hsg : (if Ascii.eqb c "+" then decimal_unsigned s
                 else if Ascii.eqb c "-" then Z.opp <$> decimal_unsigned s
                 else decimal_unsigned (String c s))
                = if sg.1 then Z.opp <$> decimal_unsigned sg.2
                  else decimal_unsigned sg.2).
  { subst sg. by destruct (Ascii.eqb c "+"), (Ascii.eqb c "-"). }
  rewrite Hsg. clear Hsg. destruct sg as [neg s1]. cbn [fst snd].
  generalize (String c s) as s0. intros s0.
  change (2 ^ ((if 0 =? 0 then intSize else 0) - 1)) with (2 ^ 63).
  pose proof (ParseUint_spec s1) as Hu.
  destruct (decimal_unsigned s1) as [v |] eqn:Hv.
  - assert (0 ≤ v) as Hv0.
    { destruct s1; [done |]. by apply decimal_digits_ge in Hv. }
    rewrite Hu. clear Hu.
    destruct (Z.leb_spec v (2 ^ 64 - 1)) as [Hfit | Hbig].
    + destruct neg; cbn [negb andb fmap option_fmap option_map].
      * destruct (Z.ltb_spec (2 ^ 63) v) as [Hlt | Hle].
        -- parsed_out_of_range.
        -- assert (int64 (- int64 v) = - v) as ->.
           { destruct (Z.eq_dec v (2 ^ 63)) as [-> | ?].
             - by rewrite int64_min.
             - rewrite (int64_small v) by lia. apply int64_small. lia. }
           parsed_in_range.
      * destruct (Z.leb_spec (2 ^ 63) v) as [Hle | Hlt].
        -- parsed_out_of_range.
        -- rewrite (int64_small v) by lia.
           parsed_in_range.
    + destruct neg; cbn [negb andb fmap option_fmap option_map].
      * change (2 ^ 63 <? 2 ^ 64 - 1) with true. cbn iota.
        parsed_out_of_range.
      * change (2 ^ 63 <=? 2 ^ 64 - 1) with true. cbn iota.
        parsed_out_of_range.
  - destruct Hu as (un & e & -> & He).
    destruct e.
    + split; [done |]. destruct neg; by intros [? _].
    + rewrite He by done.
      destruct neg; cbn [negb andb].
      * change (2 ^ 63 <? 2 ^ 64 - 1) with true. cbn iota.
        split; [done |]. by intros [? _].
      * change (2 ^ 63 <=? 2 ^ 64 - 1) with true. cbn iota.
        split; [done |]. by intros [? _].
Qed.

(** [Atoi] returns [n] without an error exactly on the decimal integers of
    the [int] range: an optional sign, at least one digit, nothing else. *)
Lemma Atoi_decimal s n :
  Atoi s = (n, None)
  ↔ decimal_integer s = Some n ∧ - 2 ^ 63 ≤ n ≤ 2 ^ 63 - 1.
Proof.
  unfold Atoi.
  change (intSize =? 32) with false. change (intSize =? 64) with true.
  cbn [andb orb].
  destruct ((0 <? len s) && (len s <? 19)) eqn:Hfast.
  - (* fast path *)
    apply andb_true_iff in Hfast as [_ Hlen%Z.ltb_lt].
    destruct s as [| c s']; [simpl; split; [done | by intros [? _]] |].
    assert (len s' < 19) as Hlen' by (unfold len in *; simpl in Hlen; lia).
    unfold decimal_integer.
    destruct (Ascii.eqb c "-" || Ascii.eqb c "+") eqn:Hsign.
    + destruct (Z.ltb_spec (len s') 1) as [Hs' | Hs'].
      * assert (s' = "") as ->.
        { destruct s'; [done | unfold len in Hs'; simpl in Hs'; lia]. }
        split; [done |].
        destruct (Ascii.eqb c "+"), (Ascii.eqb c "-"); try done;
          by intros [? _].
      * assert (s' ≠ "") as Hne.
        { intros ->. unfold len in Hs'. simpl in Hs'. lia. }
        rewrite Atoi_fast_loop_decimal, (decimal_unsigned_digits s' Hne).
        destruct (decimal_digits s' 0) as [v |] eqn:Hv.
        -- pose proof (decimal_digits_short s' v Hlen' Hv) as Hb.
           assert (10 ^ 18 < 2 ^ 63) as Hp by done.
           destruct (Ascii.eqb_spec c "+") as [-> | Hplus].
           ++ simpl. parsed_in_range.
           ++ destruct (Ascii.eqb c "-"); [| done]. simpl.
              parsed_in_range.
        -- split; [done |].
           destruct (Ascii.eqb c "+"), (Ascii.eqb c "-"); by intros [? _].
    + apply orb_false_iff in Hsign as [-> ->].
      rewrite Atoi_fast_loop_decimal, decimal_unsigned_digits by done.
      destruct (decimal_digits (String c s') 0) as [v |] eqn:Hv.
      * pose proof (decimal_digits_short _ v Hlen Hv) as Hb.
        assert (10 ^ 18 < 2 ^ 63) as Hp by done.
        parsed_in_range.
      * split; [done | by intros [? _]].
  - (* slow path *)
    rewrite <- ParseInt_spec.
    destruct (ParseInt s 0) as [i64 [e |]]; [| done].
    split; [by destruct e | done].
Qed.

(** ** [time.ParseDuration] on a magnitude followed by a unit *)

Lemma not_digit_test c :
  (byte c <? 48) || (57 <? byte c) = negb (isDigit c).
Proof.
  unfold isDigit.
  destruct (Z.ltb_spec (byte c) 48), (Z.leb_spec 48 (byte c)); try lia;
    destruct (Z.ltb_spec 57 (byte c)), (Z.leb_spec (byte c) 57); try lia; done.
Qed.

Lemma leadingInt_loop_digits ds rest :
  no_leading_digit rest →
  ∀ x v, 0 ≤ x → decimal_digits ds x = Some v → v ≤ 2 ^ 63 →
    leadingInt_loop (ds +:+ rest) x = (v, rest, false).
Proof.
  intros Hrest. induction ds as [| c ds IH]; intros x v Hx Hv Hmax.
  - simpl in Hv. injection Hv as <-. simpl.
    destruct rest as [| c r]; [done |]. simpl in *.
    by rewrite not_digit_test, Hrest.
  - simpl in Hv. destruct (isDigit c) eqn:Hd; [| done].
    change (String c ds +:+ rest) with (String c (ds +:+ rest)).
    cbn [leadingInt_loop]. rewrite not_digit_test, Hd. cbn [negb].
    pose proof Hd as Hc%isDigit_spec.
    assert (x * 10 + (byte c - 48) ≤ v) as Hge
      by (apply (decimal_digits_ge ds); [lia | done]).
    change (2 ^ 63 / 10) with 922337203685477580.
    destruct (Z.ltb_spec 922337203685477580 x); [lia |].
    rewrite (uint64_small (x * 10)) by lia.
    rewrite (uint64_small (x * 10 + byte c)) by lia.
    rewrite (uint64_small (x * 10 + byte c - 48)) by lia.
    destruct (Z.ltb_spec (2 ^ 63) (x * 10 + byte c - 48)); [lia |].
    apply IH; [lia | | done].
    by replace (x * 10 + byte c - 48) with (x * 10 + (byte c - 48)) by lia.
Qed.

Lemma unitMap_Some u unit :
  unitMap u = Some unit →
  0 < unit ≤ Hour ∧ unitSpan u = (u, "")
  ∧ ∃ c u', u = String c u' ∧ isDigit c = false ∧ Ascii.eqb c "." = false.
Proof.
  unfold unitMap.
  repeat match goal with
         | |- context [String.eqb u ?k] =>
             destruct (String.eqb_spec u k) as [-> | _];
             [intros [= <-]; repeat split; try done;
              eexists _, _; split; [reflexivity | by split] |]
         end.
  done.
Qed.

Lemma length_append (s1 s2 : string) :
  String.length (s1 +:+ s2) = (String.length s1 + String.length s2)%nat.
Proof. induction s1 as [| c s1 IH]; simpl; [done | by rewrite IH]. Qed.

(** A decimal magnitude [ds] followed by a unit [u] of [unitMap] parses to
    the magnitude times the unit, as long as that fits a [Duration]. *)
Lemma ParseDuration_magnitude_unit ds u n unit :
  decimal_unsigned ds = Some n → unitMap u = Some unit →
  n * unit ≤ 2 ^ 63 - 1 →
  ParseDuration (ds +:+ u) = (n * unit, None).
Proof.
  intros Hds Hu Hfit.
  destruct (unitMap_Some u unit Hu)
    as ([Hpos Hhour] & Hspan & c1 & u' & Hueq & Hc1 & Hdot).
  destruct ds as [| c ds]; [done |]. simpl in Hds.
  destruct (isDigit c) eqn:Hc; [| done].
  assert (0 ≤ n) as Hn0.
  { pose proof Hc as Hc'%isDigit_spec.
    apply decimal_digits_ge in Hds; lia. }
  assert (n ≤ 2 ^ 63 - 1) as Hn by nia.
  change (String c ds +:+ u) with (String c (ds +:+ u)).
  assert (Hint : leadingInt (String c (ds +:+ u)) = (n, u, false)).
  { unfold leadingInt.
    apply (leadingInt_loop_digits (String c ds) u); [by subst u | lia | | lia].
    simpl. by rewrite Hc. }
  assert (Hsign : (Ascii.eqb c "-" || Ascii.eqb c "+") = false).
  { destruct (Ascii.eqb_spec c "-") as [-> | _]; [done |].
    by destruct (Ascii.eqb_spec c "+") as [-> | _]. }
  assert (Hlen : String.length (String c (ds +:+ u))
                 = S (String.length ds + String.length u)).
  { simpl. by rewrite length_append. }
  assert (Hstep : ∀ orig, ParseDuration_step orig (String c (ds +:+ u)) 0
                          = inr ("", n * unit)).
  { intros orig. unfold ParseDuration_step.
    rewrite Hc, orb_true_r. cbn [negb]. rewrite Hint.
    assert ((len (String c (ds +:+ u)) =? len u) = false) as ->.
    { apply Z.eqb_neq. unfold len. rewrite Hlen. lia. }
    assert ((len u =? 0) = false) as Hlenu.
    { apply Z.eqb_neq. subst u. unfold len. simpl. lia. }
    subst u. cbv beta iota. rewrite Hdot. cbn [negb andb].
    rewrite Hspan, Hlenu, Hu.
    assert (n ≤ 2 ^ 63 / unit) as Hdiv.
    { apply Z.div_le_lower_bound; lia. }
    destruct (Z.ltb_spec (2 ^ 63 / unit) n); [lia |].
    change (0 <? 0) with false. cbv beta iota.
    rewrite (uint64_small (n * unit)) by nia.
    change (0 + n * unit) with (n * unit).
    rewrite (uint64_small (n * unit)) by nia.
    destruct (Z.ltb_spec (2 ^ 63) (n * unit)); [lia | done]. }
  unfold ParseDuration, ParseDuration_fuel. rewrite Hsign.
  assert (String.eqb (String c (ds +:+ u)) "0" = false) as ->.
  { apply String.eqb_neq. intros Heq.
    apply (f_equal String.length) in Heq. rewrite Hlen in Heq.
    subst u. simpl in Heq. lia. }
  assert (String.eqb (String c (ds +:+ u)) "" = false) as -> by done.
  rewrite Hlen. cbn [ParseDuration_loop]. rewrite Hstep.
  assert (∀ k, ParseDuration_loop k (String c (ds +:+ u)) "" (n * unit)
               = Some (inr (n * unit))) as -> by (by intros []).
  destruct (Z.ltb_spec (2 ^ 63 - 1) (n * unit)); [lia |].
  rewrite int64_small by nia. done.
Qed.

(** ** The snapshot returned by [Load] *)

Lemma getEnv_not_empty env key dflt : dflt ≠ "" → getEnv env key dflt ≠ "".
Proof.
  intros Hd. unfold getEnv.
  by destruct (String.eqb_spec (Getenv env key) "").
Qed.

Lemma getEnv_agree env1 env2 key dflt :
  Getenv env1 key = Getenv env2 key →
  getEnv env1 key dflt = getEnv env2 key dflt.
Proof. unfold getEnv. by intros ->. Qed.

Lemma getEnvAsInt_agree env1 env2 key dflt :
  Getenv env1 key = Getenv env2 key →
  getEnvAsInt env1 key dflt = getEnvAsInt env2 key dflt.
Proof. unfold getEnvAsInt. by intros ->. Qed.

Lemma getEnvAsDuration_agree env1 env2 key dflt :
  Getenv env1 key = Getenv env2 key →
  getEnvAsDuration env1 key dflt = getEnvAsDuration env2 key dflt.
Proof. unfold getEnvAsDuration. by intros ->. Qed.

Lemma getEnv_verbatim (env : gmap string string) key dflt v :
  env !! key = Some v → v ≠ "" → getEnv env key dflt = v.
Proof.
  intros Hv Hne.
  rewrite getEnv_set; rewrite (Getenv_lookup_Some _ _ _ Hv); done.
Qed.

Lemma getEnv_default (env : gmap string string) key dflt :
  env !! key = None ∨ env !! key = Some "" → getEnv env key dflt = dflt.
Proof.
  intros [H | H]; apply getEnv_unset.
  - by apply Getenv_lookup_None.
  - by apply Getenv_lookup_Some.
Qed.

(** [tac] run on the instance of [H : ∀ f : Field, _] at every row of the
    table. *)
Local Ltac at_every_field H tac :=
  tac (H APP_NAME); tac (H ENV); tac (H HOST); tac (H PORT);
  tac (H ALLOWED_ORIGINS); tac (H DB_HOST); tac (H DB_PORT); tac (H DB_USER);
  tac (H DB_PASSWORD); tac (H DB_NAME); tac (H DB_SSLMODE);
  tac (H DB_MAX_CONNECTIONS); tac (H DB_MAX_IDLE_TIME); tac (H REDIS_HOST);
  tac (H REDIS_PORT); tac (H REDIS_PASSWORD); tac (H REDIS_DB);
  tac (H JWT_SECRET); tac (H JWT_EXPIRES_IN); tac (H MEDIA_ROOT_PATH);
  tac (H UPLOAD_PATH); tac (H POSTER_PATH); tac (H THUMBNAIL_PATH);
  tac (H FFMPEG_PATH); tac (H MEDIAINFO_PATH); tac (H TMDB_API_KEY);
  tac (H OMDB_API_KEY); tac (H LOG_LEVEL); tac (H LOG_FORMAT).

(** The snapshot only depends on the values of the variables of the table. *)
Lemma Load_agree env1 env2 :
  (∀ f, Getenv env1 (var_name f) = Getenv env2 (var_name f)) →
  Load env1 = Load env2.
Proof.
  intros H. unfold Load.
  at_every_field H ltac:(fun h =>
    first [rewrite (getEnv_agree _ _ _ _ h)
          | rewrite (getEnvAsInt_agree _ _ _ _ h)
          | rewrite (getEnvAsDuration_agree _ _ _ _ h)]).
  reflexivity.
Qed.

(** ** Each helper in terms of the lookup in the environment *)

Lemma getEnv_lookup (env : gmap string string) key dflt :
  getEnv env key dflt
  = match env !! key with
    | Some v => if String.eqb v "" then dflt else v
    | None => dflt
    end.
Proof.
  unfold getEnv, Getenv. destruct (env !! key) as [v |]; [| done].
  simpl. by destruct (String.eqb v "").
Qed.

Lemma getEnvAsInt_lookup (env : gmap string string) key dflt :
  getEnvAsInt env key dflt
  = match env !! key with
    | Some v =>
        match Atoi v with
        | (n, None) => n
        | (_, Some _) => dflt
        end
    | None => dflt
    end.
Proof.
  unfold getEnvAsInt, Getenv. destruct (env !! key) as [v |]; [| done].
  simpl. destruct (String.eqb_spec v "") as [-> | _]; [| done].
  by rewrite Atoi_empty.
Qed.

Lemma getEnvAsDuration_lookup (env : gmap string string) key dflt :
  getEnvAsDuration env key dflt
  = match env !! key with
    | Some v =>
        match ParseDuration v with
        | (d, None) => d
        | (_, Some _) => dflt
        end
    | None => dflt
    end.
Proof.
  unfold getEnvAsDuration, Getenv. destruct (env !! key) as [v |]; [| done].
  simpl. destruct (String.eqb_spec v "") as [-> | _]; [| done].
  by rewrite ParseDuration_empty.
Qed.

(** ** The reads of [Load] leave the environment as it is *)

Lemma getEnvM_run key dflt environ :
  getEnvM key dflt environ = (getEnv environ key dflt, environ).
Proof. reflexivity. Qed.

Lemma getEnvAsIntM_run key dflt environ :
  getEnvAsIntM key dflt environ = (getEnvAsInt environ key dflt, environ).
Proof. reflexivity. Qed.

Lemma getEnvAsDurationM_run key dflt environ :
  getEnvAsDurationM key dflt environ
  = (getEnvAsDuration environ key dflt, environ).
Proof. reflexivity. Qed.

Lemma Proc_bind_run {A B} (m : Proc A) (f : A → Proc B) environ a environ' :
  m environ = (a, environ') → (m ≫= f) environ = f a environ'.
Proof. unfold mbind, Proc_bind. by intros ->. Qed.

(** [Load] as a program returns what [Load] as a function of the
    environment returns, and leaves the environment it ran in. *)
Lemma LoadM_run environ : LoadM environ = (Load environ, environ).
Proof.
  unfold LoadM.
  repeat first
    [ erewrite Proc_bind_run by apply getEnvM_run
    | erewrite Proc_bind_run by apply getEnvAsIntM_run
    | erewrite Proc_bind_run by apply getEnvAsDurationM_run ].
  reflexivity.
Qed.

(** ** The claims of the specification *)

(** C1: for every process environment, [Load] returns a fully populated
    snapshot together with a [nil] error: every attribute of the snapshot
    is the one that the specification resolves for its row (the typed value
    of the variable, or the default when the variable is missing, empty or
    does not parse), and nothing in the environment makes [Load] return an
    error. *)
Theorem Load_never_fails (env : gmap string string) :
  ∃ config,
    Load env = (config, None)
    ∧ ∀ f, field_of f config = spec_resolve env f.
Proof.
  eexists. split; [reflexivity |]. intros f.
  destruct f; unfold spec_resolve, Load;
    cbn [var_name fst field_of spec_defaults
         App Database Redis JWT Media External Logging
         App_Name App_Environment App_Host App_Port App_Origins
         Database_Host Database_Port Database_User Database_Password
         Database_Name Database_SSLMode Database_MaxConnections
         Database_MaxIdleTime Redis_Host Redis_Port Redis_Password Redis_DB
         JWT_Secret JWT_ExpiresIn Media_RootPath Media_UploadPath
         Media_PosterPath Media_ThumbnailPath Media_FFmpegPath
         Media_MediaInfoPath External_TMDBAPIKey External_OMDBAPIKey
         Logging_Level Logging_Format];
    rewrite ?getEnv_lookup, ?getEnvAsInt_lookup, ?getEnvAsDuration_lookup;
    try reflexivity.
  (* the origins: the default list is the default literal, split *)
  destruct (env !! "ALLOWED_ORIGINS") as [v |]; [| reflexivity].
  by destruct (String.eqb v "").
Qed.

(** C2: when every variable that [Load] consults is unset or empty, the
    snapshot is the table of defaults of the specification, and the error
    is [nil]. *)
Theorem Load_all_unset (env : gmap string string) :
  (∀ f, Getenv env (var_name f) = "") →
  Load env = (spec_defaults, None).
Proof.
  intros H. unfold Load.
  at_every_field H ltac:(fun h =>
    first [rewrite (getEnv_unset _ _ _ h)
          | rewrite (getEnvAsInt_unset _ _ _ h)
          | rewrite (getEnvAsDuration_unset _ _ _ h)]).
  reflexivity.
Qed.

(** An environment in which two of the variables are set to the empty
    string and a variable that [Load] does not consult has a value. *)
Lemma Load_all_unset_witness :
  let env : gmap string string :=
    {[ "PORT" := ""; "REDIS_DB" := ""; "HOME" := "/root" ]} in
  (∀ f, Getenv env (var_name f) = "") ∧ Load env = (spec_defaults, None).
Proof.
  intros env.
  assert (H : ∀ f, Getenv env (var_name f) = "") by (intros []; reflexivity).
  split; [exact H | exact (Load_all_unset env H)].
Defined.

(** C3: each of the two integer attributes ([DB_MAX_CONNECTIONS], default
    25, and [REDIS_DB], default 0) is the integer [Atoi] parses from the
    value of its variable when the value parses, and the default when the
    variable is missing or the value does not parse; [Load] returns no
    error either way. [Atoi] parses exactly the decimal integers of the
    [int] range. With [DB_MAX_CONNECTIONS="notanumber"] the attribute is 25,
    with [REDIS_DB="3"] it is 3. *)
Theorem Load_integer_fields (env : gmap string string) :
  let config := (Load env).1 in
  resolves_int env "DB_MAX_CONNECTIONS" 25
    (Database_MaxConnections (Database config))
  ∧ resolves_int env "REDIS_DB" 0 (Redis_DB (Redis config))
  ∧ (∀ v n, Atoi v = (n, None)
            ↔ decimal_integer v = Some n ∧ - 2 ^ 63 ≤ n ≤ 2 ^ 63 - 1)
  ∧ (env !! "DB_MAX_CONNECTIONS" = Some "notanumber" →
     Database_MaxConnections (Database config) = 25)
  ∧ (env !! "REDIS_DB" = Some "3" → Redis_DB (Redis config) = 3)
  ∧ (Load env).2 = None.
Proof.
  cbn zeta. unfold Load.
  cbn [fst snd Database Redis Database_MaxConnections Redis_DB].
  split; [apply getEnvAsInt_resolves |].
  split; [apply getEnvAsInt_resolves |].
  split; [apply Atoi_decimal |].
  split; [| split; [| reflexivity]].
  - intros Hv. eapply getEnvAsInt_failed.
    rewrite (Getenv_lookup_Some _ _ _ Hv). reflexivity.
  - intros Hv. apply getEnvAsInt_parsed.
    rewrite (Getenv_lookup_Some _ _ _ Hv). reflexivity.
Qed.

(** One variable with a value that is no integer, the other with a value
    that is one. *)
Lemma Load_integer_fields_witness :
  let env : gmap string string :=
    {[ "DB_MAX_CONNECTIONS" := "notanumber"; "REDIS_DB" := "-3" ]} in
  Database_MaxConnections (Database (Load env).1) = 25
  ∧ Redis_DB (Redis (Load env).1) = -3.
Proof.
  intros env.
  destruct (Load_integer_fields env) as (_ & (Hparsed & _) & _ & Hnan & _).
  split; [apply Hnan; reflexivity |].
  apply (Hparsed "-3"); reflexivity.
Defined.

(** C4: each of the two duration attributes ([DB_MAX_IDLE_TIME], default 15
    minutes, and [JWT_EXPIRES_IN], default 24 hours) is the duration
    [ParseDuration] parses from the value of its variable when the value
    parses, and the default when the variable is missing or the value does
    not parse. A decimal magnitude followed by a unit parses to the
    magnitude times the unit whenever that fits a [Duration]; with
    [JWT_EXPIRES_IN="48h"] the attribute is 48 hours, with
    [JWT_EXPIRES_IN="nope"] it is the default. *)
Theorem Load_duration_fields (env : gmap string string) :
  let config := (Load env).1 in
  resolves_duration env "DB_MAX_IDLE_TIME" (15 * Minute)
    (Database_MaxIdleTime (Database config))
  ∧ resolves_duration env "JWT_EXPIRES_IN" (24 * Hour)
      (JWT_ExpiresIn (JWT config))
  ∧ (∀ ds u n unit,
       decimal_unsigned ds = Some n → unitMap u = Some unit →
       n * unit ≤ 2 ^ 63 - 1 →
       ParseDuration (ds +:+ u) = (n * unit, None))
  ∧ (env !! "JWT_EXPIRES_IN" = Some "48h" →
     JWT_ExpiresIn (JWT config) = 48 * 3600 * 1000000000)
  ∧ (env !! "DB_MAX_IDLE_TIME" = Some "15m" →
     Database_MaxIdleTime (Database config) = 15 * 60 * 1000000000)
  ∧ (env !! "JWT_EXPIRES_IN" = Some "nope" →
     JWT_ExpiresIn (JWT config) = 24 * 3600 * 1000000000)
  ∧ (env !! "DB_MAX_IDLE_TIME" = Some "nope" →
     Database_MaxIdleTime (Database config) = 15 * 60 * 1000000000).
Proof.
  cbn zeta. unfold Load.
  cbn [fst snd Database JWT Database_MaxIdleTime JWT_ExpiresIn].
  split; [apply getEnvAsDuration_resolves |].
  split; [apply getEnvAsDuration_resolves |].
  split; [apply ParseDuration_magnitude_unit |].
  repeat split; intros Hv.
  - apply getEnvAsDuration_parsed.
    rewrite (Getenv_lookup_Some _ _ _ Hv). reflexivity.
  - apply getEnvAsDuration_parsed.
    rewrite (Getenv_lookup_Some _ _ _ Hv). reflexivity.
  - erewrite getEnvAsDuration_failed; [reflexivity |].
    rewrite (Getenv_lookup_Some _ _ _ Hv). reflexivity.
  - erewrite getEnvAsDuration_failed; [reflexivity |].
    rewrite (Getenv_lookup_Some _ _ _ Hv). reflexivity.
Qed.

(** One variable set to 48 hours, the other to a number without a unit. *)
Lemma Load_duration_fields_witness :
  let env : gmap string string :=
    {[ "JWT_EXPIRES_IN" := "48h"; "DB_MAX_IDLE_TIME" := "900" ]} in
  JWT_ExpiresIn (JWT (Load env).1) = 172800000000000
  ∧ Database_MaxIdleTime (Database (Load env).1) = 900000000000
  ∧ ParseDuration ("48" +:+ "h") = (48 * Hour, None).
Proof.
  intros env.
  destruct (Load_duration_fields env)
    as ((_ & _ & Hfailed) & _ & Hgrammar & H48 & _).
  split; [apply H48; reflexivity |].
  split.
  - apply (Hfailed "900" 0 (errMissingUnit "900")); reflexivity.
  - apply Hgrammar; [reflexivity | reflexivity | vm_compute; discriminate].
Defined.

(** C5: a string attribute is the value of its variable, byte for byte,
    when the variable is set to a non-empty value, and the default of the
    table when the variable is unset or set to the empty string. *)
Theorem Load_string_fields (env : gmap string string) (f : Field)
  (dflt : string) :
  field_of f spec_defaults = VString dflt →
  (∀ v, env !! var_name f = Some v → v ≠ "" →
        field_of f (Load env).1 = VString v)
  ∧ (env !! var_name f = None ∨ env !! var_name f = Some "" →
     field_of f (Load env).1 = VString dflt).
Proof.
  intros Hd.
  destruct f; simpl in Hd; try discriminate; injection Hd as <-;
    (split;
     [intros v Hv Hne; simpl; f_equal; by apply getEnv_verbatim
     | intros Hv; simpl; f_equal; by apply getEnv_default]).
Qed.

(** [LOG_LEVEL] set to a value with spaces around it, which are kept. *)
Lemma Load_string_fields_witness :
  let env : gmap string string :=
    {[ "LOG_LEVEL" := " debug "; "LOG_FORMAT" := "" ]} in
  field_of LOG_LEVEL spec_defaults = VString "info"
  ∧ field_of LOG_LEVEL (Load env).1 = VString " debug ".
Proof.
  intros env. split; [reflexivity |].
  apply (proj1 (Load_string_fields env LOG_LEVEL "info" eq_refl) " debug ");
    [reflexivity | discriminate].
Defined.

(** C6: the origins of the snapshot are the resolved [ALLOWED_ORIGINS]
    string split on the comma. The split keeps the order and every byte
    other than the separators: the elements joined with commas give the
    string back, and no element contains a comma. With
    [ALLOWED_ORIGINS="http://a.com,http://b.com"] the list has these two
    elements in this order; with the variable unset it is the default
    literal alone. *)
Theorem Load_origins (env : gmap string string) :
  let resolved := getEnv env "ALLOWED_ORIGINS" "http://localhost:3000" in
  let origins := App_Origins (App (Load env).1) in
  origins = Split resolved ","
  ∧ origins = split_on "," resolved
  ∧ join "," origins = resolved
  ∧ Forall (λ x, CountString x "," = O) origins
  ∧ (env !! "ALLOWED_ORIGINS" = Some "http://a.com,http://b.com" →
     origins = ["http://a.com"; "http://b.com"])
  ∧ (env !! "ALLOWED_ORIGINS" = None → origins = ["http://localhost:3000"]).
Proof.
  cbn zeta. unfold Load. cbn [fst App App_Origins].
  split; [reflexivity |].
  split; [apply Split_split_on |].
  split; [rewrite Split_split_on; apply join_split_on |].
  split; [rewrite Split_split_on; apply split_on_elements_no_sep |].
  split; intros Hv.
  - rewrite (getEnv_verbatim _ _ _ _ Hv); done.
  - rewrite getEnv_default by (by left). reflexivity.
Qed.

(** The two origins of the specification's example. *)
Lemma Load_origins_witness :
  let env : gmap string string :=
    {[ "ALLOWED_ORIGINS" := "http://a.com,http://b.com" ]} in
  App_Origins (App (Load env).1) = ["http://a.com"; "http://b.com"].
Proof.
  intros env.
  destruct (Load_origins env) as (_ & _ & _ & _ & Hset & _).
  apply Hset. reflexivity.
Defined.

(** C7, as the code has it: splitting the empty string on the comma gives
    the one-element list of the empty string, but [Load] never splits an
    empty string: when [ALLOWED_ORIGINS] is set to the empty string,
    [getEnv] returns the default literal and the origins are that literal
    alone. *)
Theorem Load_origins_empty_variable :
  Split "" "," = [""]
  ∧ ∀ env : gmap string string,
      env !! "ALLOWED_ORIGINS" = Some "" →
      App_Origins (App (Load env).1) = ["http://localhost:3000"].
Proof.
  split; [reflexivity |]. intros env Hv.
  unfold Load. cbn [fst App App_Origins].
  rewrite getEnv_default by (by right). reflexivity.
Qed.

(** [ALLOWED_ORIGINS] set to the empty string, next to another variable. *)
Lemma Load_origins_empty_variable_witness :
  let env : gmap string string :=
    {[ "ALLOWED_ORIGINS" := ""; "HOST" := "127.0.0.1" ]} in
  env !! "ALLOWED_ORIGINS" = Some ""
  ∧ App_Origins (App (Load env).1) = ["http://localhost:3000"].
Proof.
  intros env. split; [reflexivity |].
  apply (proj2 Load_origins_empty_variable env). reflexivity.
Defined.

(** C7 fails as it is written: in the environment whose only variable is
    [ALLOWED_ORIGINS], set to the empty string, the origins are not the
    one-element list of the empty string. *)
Lemma Load_origins_empty_variable_counterexample :
  let env : gmap string string := {[ "ALLOWED_ORIGINS" := "" ]} in
  env !! "ALLOWED_ORIGINS" = Some ""
  ∧ App_Origins (App (Load env).1) ≠ [""].
Proof. split; [reflexivity | discriminate]. Qed.

(** C8: an attribute of the snapshot depends on the value of its own
    variable only: in two environments that agree on that variable the
    attribute is the same, whatever the other variables are. *)
Theorem Load_field_noninterference (f : Field)
  (env1 env2 : gmap string string) :
  env1 !! var_name f = env2 !! var_name f →
  field_of f (Load env1).1 = field_of f (Load env2).1.
Proof.
  intros H%Getenv_agree.
  destruct f; cbn [var_name] in H; unfold Load;
    cbn [fst field_of App Database Redis JWT Media External Logging
         App_Name App_Environment App_Host App_Port App_Origins
         Database_Host Database_Port Database_User Database_Password
         Database_Name Database_SSLMode Database_MaxConnections
         Database_MaxIdleTime Redis_Host Redis_Port Redis_Password Redis_DB
         JWT_Secret JWT_ExpiresIn Media_RootPath Media_UploadPath
         Media_PosterPath Media_ThumbnailPath Media_FFmpegPath
         Media_MediaInfoPath External_TMDBAPIKey External_OMDBAPIKey
         Logging_Level Logging_Format];
    first [by rewrite (getEnv_agree _ _ _ _ H)
          | by rewrite (getEnvAsInt_agree _ _ _ _ H)
          | by rewrite (getEnvAsDuration_agree _ _ _ _ H)].
Qed.

(** Two environments that agree on [DB_MAX_CONNECTIONS] and on nothing
    else. *)
Lemma Load_field_noninterference_witness :
  let env1 : gmap string string :=
    {[ "DB_MAX_CONNECTIONS" := "40"; "DB_HOST" := "db1"; "PORT" := "80" ]} in
  let env2 : gmap string string :=
    {[ "DB_MAX_CONNECTIONS" := "40"; "DB_HOST" := "db2";
       "REDIS_DB" := "7" ]} in
  env1 !! "DB_MAX_CONNECTIONS" = env2 !! "DB_MAX_CONNECTIONS"
  ∧ field_of DB_MAX_CONNECTIONS (Load env1).1
    = field_of DB_MAX_CONNECTIONS (Load env2).1.
Proof.
  intros env1 env2. split; [reflexivity |].
  apply (Load_field_noninterference DB_MAX_CONNECTIONS env1 env2).
  reflexivity.
Defined.

(** C9: two calls of [Load] one after the other, started in any process
    environment: the first call leaves the environment as it found it, so
    does the second, and the two calls return the same error and snapshots
    that are equal attribute by attribute; both are what [Load] returns as
    a function of the environment the calls started in. *)
Theorem Load_twice (environ : gmap string string) :
  let run := (first ← LoadM; second ← LoadM; mret (first, second)) environ in
  let first := run.1.1 in
  let second := run.1.2 in
  run.2 = environ
  ∧ (LoadM environ).2 = environ
  ∧ first = second
  ∧ (∀ f, field_of f first.1 = field_of f second.1)
  ∧ first = Load environ.
Proof.
  cbn zeta.
  erewrite Proc_bind_run by apply LoadM_run.
  erewrite Proc_bind_run by apply LoadM_run.
  rewrite LoadM_run. by repeat split.
Qed.

(** C10: the origins of the snapshot have at least one element, in every
    environment: the resolved [ALLOWED_ORIGINS] string is not empty, and a
    split on the comma never returns the empty list. *)
Theorem Load_origins_not_empty (env : gmap string string) :
  getEnv env "ALLOWED_ORIGINS" "http://localhost:3000" ≠ ""
  ∧ (∀ s, (1 ≤ length (Split s ","))%nat)
  ∧ (1 ≤ length (App_Origins (App (Load env).1)))%nat.
Proof.
  assert (Hsplit : ∀ s, (1 ≤ length (Split s ","))%nat).
  { intros s. rewrite Split_split_on, split_on_length. lia. }
  split; [by apply getEnv_not_empty |]. split; [exact Hsplit |].
  unfold Load. cbn [fst App App_Origins]. apply Hsplit.
Qed.

(** ** The scenarios of the specification, run *)

Example scenario_defaults : Load ∅ = (spec_defaults, None).
Proof. reflexivity. Qed.

Example scenario_not_a_number :
  Database_MaxConnections
    (Database (Load {[ "DB_MAX_CONNECTIONS" := "notanumber" ]}).1) = 25.
Proof. reflexivity. Qed.

Example scenario_48h :
  JWT_ExpiresIn (JWT (Load {[ "JWT_EXPIRES_IN" := "48h" ]}).1) = 48 * Hour.
Proof. vm_compute. reflexivity. Qed.

Example scenario_redis_db :
  Redis_DB (Redis (Load {[ "REDIS_DB" := "3" ]}).1) = 3
  ∧ Redis_DB (Redis (Load ∅).1) = 0.
Proof. split; reflexivity. Qed.

Example scenario_origins :
  App_Origins
    (App (Load {[ "ALLOWED_ORIGINS" := "http://a.com,http://b.com" ]}).1)
  = ["http://a.com"; "http://b.com"].
Proof. reflexivity. Qed.

Example scenario_origins_untrimmed :
  App_Origins (App (Load {[ "ALLOWED_ORIGINS" := "a, b ,,c" ]}).1)
  = ["a"; " b "; ""; "c"].
Proof. reflexivity. Qed.

Example scenario_out_of_range_integer :
  Redis_DB (Redis (Load {[ "REDIS_DB" := "9223372036854775808" ]}).1) = 0.
Proof. reflexivity. Qed.

Example scenario_fraction_of_an_hour :
  ParseDuration "1.5h" = (90 * Minute, None)
  ∧ ParseDuration "-0.25s" = (- 250 * Millisecond, None).
Proof. split; vm_compute; reflexivity. Qed.

Example scenario_invalid_duration :
  Database_MaxIdleTime
    (Database (Load {[ "DB_MAX_IDLE_TIME" := "10" ]}).1) = 15 * Minute.
Proof. vm_compute. reflexivity. Qed.


(** * Further properties of the code *)

(** ** [Load] and the environment as a map *)

Lemma var_name_inj f g : var_name f = var_name g → f = g.
Proof. destruct f, g; first [reflexivity | discriminate]. Qed.

(** An attribute is computed from the value of its own variable. *)
Lemma field_of_Load_agree g env1 env2 :
  Getenv env1 (var_name g) = Getenv env2 (var_name g) →
  field_of g (Load env1).1 = field_of g (Load env2).1.
Proof.
  intros H.
  destruct g; cbn [var_name] in H; unfold Load;
    cbn [fst field_of App Database Redis JWT Media External Logging
         App_Name App_Environment App_Host App_Port App_Origins
         Database_Host Database_Port Database_User Database_Password
         Database_Name Database_SSLMode Database_MaxConnections
         Database_MaxIdleTime Redis_Host Redis_Port Redis_Password Redis_DB
         JWT_Secret JWT_ExpiresIn Media_RootPath Media_UploadPath
         Media_PosterPath Media_ThumbnailPath Media_FFmpegPath
         Media_MediaInfoPath External_TMDBAPIKey External_OMDBAPIKey
         Logging_Level Logging_Format];
    first [by rewrite (getEnv_agree _ _ _ _ H)
          | by rewrite (getEnvAsInt_agree _ _ _ _ H)
          | by rewrite (getEnvAsDuration_agree _ _ _ _ H)].
Qed.

Lemma Getenv_insert_ne (env : gmap string string) k k' v :
  k ≠ k' → Getenv (<[k := v]> env) k' = Getenv env k'.
Proof. intros Hne. unfold Getenv. by rewrite lookup_insert_ne. Qed.

Lemma Getenv_delete_ne (env : gmap string string) k k' :
  k ≠ k' → Getenv (delete k env) k' = Getenv env k'.
Proof. intros Hne. unfold Getenv. by rewrite lookup_delete_ne. Qed.

Lemma Getenv_insert_eq (env : gmap string string) k v :
  Getenv (<[k := v]> env) k = v.
Proof. unfold Getenv. by rewrite lookup_insert_eq. Qed.

Lemma Getenv_singleton k v :
  Getenv ({[ k := v ]} : gmap string string) k = v.
Proof. unfold Getenv. by rewrite lookup_singleton_eq. Qed.

Lemma Getenv_delete_eq (env : gmap string string) k :
  Getenv (delete k env) k = "".
Proof. unfold Getenv. by rewrite lookup_delete_eq. Qed.

(** Two snapshots with the same attributes are the same record. *)
Lemma Config_ext (c1 c2 : Config) :
  (∀ f, field_of f c1 = field_of f c2) → c1 = c2.
Proof.
  intros H.
  destruct c1 as [[] [] [] [] [] [] []], c2 as [[] [] [] [] [] [] []].
  at_every_field H ltac:(fun h =>
    let E := fresh in pose proof h as E; cbn in E; injection E as ->).
  reflexivity.
Qed.

(** X1: for [Load], a variable set to the empty string is a variable that
    is not set: the two environments give the same snapshot, whatever the
    variable and the rest of the environment are. *)
Theorem Load_empty_is_unset (env : gmap string string) (k : string) :
  Load (<[k := ""]> env) = Load (delete k env).
Proof.
  apply Load_agree. intros f.
  destruct (decide (k = var_name f)) as [-> | Hne].
  - by rewrite Getenv_insert_eq, Getenv_delete_eq.
  - by rewrite Getenv_insert_ne, Getenv_delete_ne.
Qed.

(** X2: a variable of the table reaches one attribute only: setting or
    removing the variable of one row leaves the attribute of every other
    row as it was. *)
Theorem Load_variable_reaches_one_field (env : gmap string string)
  (f g : Field) (v : string) :
  f ≠ g →
  field_of g (Load (<[var_name f := v]> env)).1 = field_of g (Load env).1
  ∧ field_of g (Load (delete (var_name f) env)).1 = field_of g (Load env).1.
Proof.
  intros Hfg.
  assert (var_name f ≠ var_name g) as Hne by (by intros ?%var_name_inj).
  split; apply field_of_Load_agree.
  - by apply Getenv_insert_ne.
  - by apply Getenv_delete_ne.
Qed.

(** Setting [PORT] where [HOST] is set: the host of the snapshot stays. *)
Lemma Load_variable_reaches_one_field_witness :
  let env : gmap string string := {[ "HOST" := "127.0.0.1" ]} in
  PORT ≠ HOST
  ∧ field_of HOST (Load (<["PORT" := "9000"]> env)).1 = VString "127.0.0.1".
Proof.
  intros env. split; [discriminate |].
  apply (proj1 (Load_variable_reaches_one_field env PORT HOST "9000"
                  ltac:(discriminate))).
Defined.

(** X3: the only string attributes of a snapshot that can be empty are the
    Redis password and the two API keys; every other one has a non-empty
    default, which also stands in for an empty value. *)
Theorem Load_empty_string_fields (env : gmap string string) (f : Field) :
  field_of f (Load env).1 = VString "" →
  f = REDIS_PASSWORD ∨ f = TMDB_API_KEY ∨ f = OMDB_API_KEY.
Proof.
  destruct f; try (intros _; tauto); try discriminate;
    unfold Load; cbn; intros [= H]; by apply getEnv_not_empty in H.
Qed.

Lemma Load_empty_string_fields_witness :
  field_of REDIS_PASSWORD (Load ∅).1 = VString ""
  ∧ (REDIS_PASSWORD = REDIS_PASSWORD ∨ REDIS_PASSWORD = TMDB_API_KEY
     ∨ REDIS_PASSWORD = OMDB_API_KEY).
Proof.
  split; [reflexivity |].
  apply (Load_empty_string_fields ∅ REDIS_PASSWORD). reflexivity.
Defined.

Lemma getEnv_export (env : gmap string string) key dflt :
  getEnv (<[key := getEnv env key dflt]> env) key dflt = getEnv env key dflt.
Proof.
  unfold getEnv at 1. rewrite Getenv_insert_eq.
  destruct (String.eqb_spec (getEnv env key dflt) "") as [He | _]; [| done].
  cbn. rewrite He. unfold getEnv in He.
  destruct (String.eqb_spec (Getenv env key) ""); cbn in He; congruence.
Qed.

(** X4: writing a resolved string attribute back to its variable changes
    nothing: [Load] returns the same snapshot in the environment in which
    the variable of the row is set to the attribute the snapshot has. *)
Theorem Load_export_string_field (env : gmap string string) (f : Field)
  (v : string) :
  field_of f (Load env).1 = VString v →
  Load (<[var_name f := v]> env) = Load env.
Proof.
  intros Hv.
  assert (Hsnap : (Load (<[var_name f := v]> env)).1 = (Load env).1).
  { apply Config_ext. intros g.
    destruct (decide (var_name f = var_name g)) as [<-%var_name_inj | Hne].
    - rewrite Hv. clear -Hv.
      destruct f; try discriminate; unfold Load in *; cbn in *;
        injection Hv as <-; f_equal; apply getEnv_export.
    - by apply field_of_Load_agree, Getenv_insert_ne. }
  unfold Load in *. cbn [fst] in Hsnap. by rewrite Hsnap.
Qed.

Lemma Load_export_string_field_witness :
  let env : gmap string string := {[ "DB_NAME" := "flex_prod" ]} in
  field_of DB_HOST (Load env).1 = VString "localhost"
  ∧ Load (<["DB_HOST" := "localhost"]> env) = Load env.
Proof.
  intros env. split; [reflexivity |].
  apply (Load_export_string_field env DB_HOST "localhost"). reflexivity.
Defined.

(** ** The origins with an empty element *)

Lemma ends_with_cons c b s :
  s ≠ "" → ends_with c (String b s) = ends_with c s.
Proof. by destruct s. Qed.

(** The first element of a split is empty when the string is empty or
    starts with the separator. *)
Lemma split_on_head_empty c s :
  match split_on c s with
  | x :: _ => x = "" ↔ s = "" ∨ starts_with c s = true
  | [] => False
  end.
Proof.
  destruct s as [| b s]; simpl; [by split; [left |] |].
  destruct (Ascii.eqb b c).
  - split; [by right | done].
  - destruct (split_on c s); split; intros H; try done;
      by destruct H.
Qed.

(** An element after the first is empty when the string ends with the
    separator or has it twice in a row. *)
Lemma split_on_tail_empty c s :
  match split_on c s with
  | _ :: xs => "" ∈ xs ↔ ends_with c s || has_double c s = true
  | [] => False
  end.
Proof.
  induction s as [| b s IH]; [simpl; split; [by intros ?%elem_of_nil | done] |].
  pose proof (split_on_head_empty c s) as Hhead.
  cbn [split_on has_double].
  destruct (split_on c s) as [| x xs] eqn:E; [done |].
  destruct (Ascii.eqb_spec b c) as [-> | Hne].
  - rewrite elem_of_cons. destruct s as [| b' s'].
    + simpl in *. injection E as <- <-. rewrite Ascii.eqb_refl.
      split; [done | by left].
    + rewrite ends_with_cons by done. cbn [andb].
      rewrite !orb_true_iff. rewrite orb_true_iff in IH.
      assert ("" = x ↔ starts_with c (String b' s') = true) as ->; [| tauto].
      split; [intros <- | intros ?; symmetry]; [| apply Hhead; by right].
      by destruct (proj1 Hhead eq_refl).
  - cbn [andb orb]. destruct s as [| b' s'].
    + simpl in *. injection E as <- <-.
      destruct (Ascii.eqb_spec b c); [done |].
      split; [by intros ?%elem_of_nil | done].
    + by rewrite ends_with_cons.
Qed.

Lemma split_on_empty_element c s :
  s ≠ "" →
  "" ∈ split_on c s
  ↔ starts_with c s || ends_with c s || has_double c s = true.
Proof.
  intros Hs.
  pose proof (split_on_head_empty c s) as Hhead.
  pose proof (split_on_tail_empty c s) as Htail.
  destruct (split_on c s) as [| x xs]; [done |].
  rewrite elem_of_cons, <- orb_assoc, orb_true_iff, <- Htail.
  split; intros [H | H]; try by right.
  - left. symmetry in H. apply Hhead in H as [? | ?]; done.
  - left. symmetry. apply Hhead. by right.
Qed.

(** X5: the origins of the snapshot have one element more than the
    resolved [ALLOWED_ORIGINS] string has commas, and one of them is the
    empty string exactly when that string starts with a comma, ends with a
    comma or has two commas in a row. *)
Theorem Load_origins_empty_element (env : gmap string string) :
  let resolved := getEnv env "ALLOWED_ORIGINS" "http://localhost:3000" in
  let origins := App_Origins (App (Load env).1) in
  length origins = S (CountString resolved ",")
  ∧ ("" ∈ origins
     ↔ starts_with "," resolved || ends_with "," resolved
       || has_double "," resolved = true).
Proof.
  cbn zeta. unfold Load. cbn [fst App App_Origins].
  rewrite Split_split_on. split; [apply split_on_length |].
  apply split_on_empty_element. by apply getEnv_not_empty.
Qed.

Example origins_trailing_comma :
  App_Origins (App (Load {[ "ALLOWED_ORIGINS" := "http://a.com," ]}).1)
  = ["http://a.com"; ""].
Proof. reflexivity. Qed.

(** ** Values that [getEnvAsInt] does not take *)

Lemma decimal_digits_all_digits s :
  ∀ acc v c, decimal_digits s acc = Some v → c ∈ bytes_of s →
    isDigit c = true.
Proof.
  induction s as [| b s IH]; intros acc v c Hv Hc; simpl in *.
  - by apply elem_of_nil in Hc.
  - destruct (isDigit b) eqn:Hb; [| done].
    apply elem_of_cons in Hc as [-> | Hc]; [done | by eapply IH].
Qed.

Lemma decimal_unsigned_all_digits s v c :
  decimal_unsigned s = Some v → c ∈ bytes_of s → isDigit c = true.
Proof.
  destruct s as [| b s]; [done |]. apply decimal_digits_all_digits.
Qed.

Lemma decimal_integer_bytes s v c :
  decimal_integer s = Some v → c ∈ bytes_of s →
  isDigit c = true ∨ c = "+"%char ∨ c = "-"%char.
Proof.
  destruct s as [| b s]; [done |]. unfold decimal_integer.
  intros Hv Hc.
  destruct (Ascii.eqb_spec b "+") as [-> | _];
    [| destruct (Ascii.eqb_spec b "-") as [-> | _]].
  - apply elem_of_cons in Hc as [-> | Hc]; [tauto | left].
    by eapply decimal_unsigned_all_digits.
  - apply elem_of_cons in Hc as [-> | Hc]; [tauto | left].
    destruct (decimal_unsigned s) eqn:E; [| done].
    by eapply decimal_unsigned_all_digits.
  - left. by eapply decimal_unsigned_all_digits.
Qed.

(** X6: [getEnvAsInt] takes nothing around or inside the number: when the
    value of the variable has a byte that is neither a decimal digit nor a
    sign (a space, a letter, a period, an underscore), the default is
    returned. *)
Theorem getEnvAsInt_stray_byte (env : gmap string string) (key v : string)
  (dflt : Z) (c : ascii) :
  env !! key = Some v →
  c ∈ bytes_of v →
  isDigit c = false → c ≠ "+"%char → c ≠ "-"%char →
  getEnvAsInt env key dflt = dflt.
Proof.
  intros Hv Hc Hd Hplus Hminus.
  destruct (Atoi v) as [n [e |]] eqn:E.
  - apply (getEnvAsInt_failed env key dflt n e).
    by rewrite (Getenv_lookup_Some _ _ _ Hv).
  - apply Atoi_decimal in E as [E _].
    destruct (decimal_integer_bytes v n c E Hc) as [? | [? | ?]]; congruence.
Qed.

(** A connection count with a space after it. *)
Lemma getEnvAsInt_stray_byte_witness :
  getEnvAsInt {[ "DB_MAX_CONNECTIONS" := "50 " ]} "DB_MAX_CONNECTIONS" 25
  = 25.
Proof.
  apply (getEnvAsInt_stray_byte _ "DB_MAX_CONNECTIONS" "50 " 25 " ");
    [reflexivity | | reflexivity | discriminate | discriminate].
  cbn. apply list_elem_of_In. cbn. tauto.
Defined.

(** ** One turn of the loop of [ParseDuration] on an integer magnitude *)

Lemma append_nil_r (s : string) : s +:+ "" = s.
Proof.
  induction s as [| c s IH]; [done |].
  change (String c s +:+ "") with (String c (s +:+ "")). by rewrite IH.
Qed.

Lemma append_assoc (s1 s2 s3 : string) :
  (s1 +:+ s2) +:+ s3 = s1 +:+ (s2 +:+ s3).
Proof.
  induction s1 as [| c s1 IH]; [done |].
  change (String c ((s1 +:+ s2) +:+ s3) = String c (s1 +:+ (s2 +:+ s3))).
  by rewrite IH.
Qed.

(** [leadingInt] on digits followed by something else: the number the
    digits denote, unless it is above [2^63]. *)
Lemma leadingInt_loop_digits_or_error ds rest :
  no_leading_digit rest →
  ∀ x w, 0 ≤ x ≤ 2 ^ 63 → decimal_digits ds x = Some w →
    leadingInt_loop (ds +:+ rest) x = (0, "", true)
    ∨ (w ≤ 2 ^ 63 ∧ leadingInt_loop (ds +:+ rest) x = (w, rest, false)).
Proof.
  intros Hrest. induction ds as [| c ds IH]; intros x w Hx Hw.
  - simpl in Hw. injection Hw as <-. right. split; [lia |]. simpl.
    destruct rest as [| c r]; [done |]. simpl in *.
    by rewrite not_digit_test, Hrest.
  - simpl in Hw. destruct (isDigit c) eqn:Hd; [| done].
    change (String c ds +:+ rest) with (String c (ds +:+ rest)).
    cbn [leadingInt_loop]. rewrite not_digit_test, Hd. cbn [negb].
    pose proof Hd as Hc%isDigit_spec.
    change (2 ^ 63 / 10) with 922337203685477580.
    destruct (Z.ltb_spec 922337203685477580 x); [by left |].
    rewrite (uint64_small (x * 10)) by lia.
    rewrite (uint64_small (x * 10 + byte c)) by lia.
    rewrite (uint64_small (x * 10 + byte c - 48)) by lia.
    destruct (Z.ltb_spec (2 ^ 63) (x * 10 + byte c - 48)); [by left |].
    apply IH; [lia |].
    by replace (x * 10 + byte c - 48) with (x * 10 + (byte c - 48)) by lia.
Qed.

Lemma unitSpan_unit u rest :
  no_digit_or_period u = true → at_unit_end rest →
  unitSpan (u +:+ rest) = (u, rest).
Proof.
  intros Hu Hrest. induction u as [| c u IH]; simpl in *.
  - destruct rest as [| c r]; [done |]. simpl in *. by rewrite Hrest.
  - apply andb_true_iff in Hu as [Hc Hu]. apply negb_true_iff in Hc.
    by rewrite Hc, (IH Hu).
Qed.

Lemma no_digit_or_period_head u rest :
  no_digit_or_period u = true → u ≠ "" ∨ rest = "" →
  match u +:+ rest with
  | "" => True
  | String c _ => Ascii.eqb c "." = false ∧ isDigit c = false
  end.
Proof.
  intros Hu [Hne | ->].
  - destruct u as [| c u]; [done |]. simpl in *.
    apply andb_true_iff in Hu as [Hc _].
    by apply negb_true_iff, orb_false_iff in Hc.
  - rewrite append_nil_r. destruct u as [| c u]; [done |]. simpl in *.
    apply andb_true_iff in Hu as [Hc _].
    by apply negb_true_iff, orb_false_iff in Hc.
Qed.

(** One turn on a decimal magnitude [ds] followed by bytes [u] that are no
    digits and no periods: an error when the magnitude is above [2^63];
    otherwise [u] is looked up as the unit, the magnitude is scaled and
    added to [d], with the checks of the code. *)
Lemma ParseDuration_step_integer orig ds u rest d n :
  decimal_unsigned ds = Some n →
  no_digit_or_period u = true → at_unit_end rest → u ≠ "" ∨ rest = "" →
  (2 ^ 63 < n ∧ ∃ e, ParseDuration_step orig (ds +:+ u +:+ rest) d = inl e)
  ∨ (n ≤ 2 ^ 63
     ∧ ParseDuration_step orig (ds +:+ u +:+ rest) d
       = if len u =? 0 then inl (errMissingUnit orig)
         else
           match unitMap u with
           | None => inl (errUnknownUnit u orig)
           | Some unit =>
               if 2 ^ 63 / unit <? n then inl (errInvalidDuration orig)
               else if 2 ^ 63 <? uint64 (d + uint64 (n * unit))
               then inl (errInvalidDuration orig)
               else inr (rest, uint64 (d + uint64 (n * unit)))
           end).
Proof.
  intros Hds Hu Hrest Hne.
  destruct ds as [| c ds]; [done |]. simpl in Hds.
  destruct (isDigit c) eqn:Hc; [| done].
  pose proof (no_digit_or_period_head u rest Hu Hne) as Hhead.
  assert (Hnld : no_leading_digit (u +:+ rest)).
  { unfold no_leading_digit. destruct (u +:+ rest); [done | tauto]. }
  change (String c ds +:+ u +:+ rest) with (String c (ds +:+ u +:+ rest)).
  assert (Hdigits : decimal_digits (String c ds) 0 = Some n)
    by (by simpl; rewrite Hc).
  assert (Hcases :
    2 ^ 63 < n ∧ leadingInt_loop (String c ds +:+ u +:+ rest) 0 = (0, "", true)
    ∨ n ≤ 2 ^ 63
      ∧ leadingInt_loop (String c ds +:+ u +:+ rest) 0
        = (n, u +:+ rest, false)).
  { destruct (Z_le_gt_dec n (2 ^ 63)) as [Hle | Hgt].
    - right. split; [done |].
      apply leadingInt_loop_digits; [done | lia | done | done].
    - left. split; [lia |].
      destruct (leadingInt_loop_digits_or_error (String c ds) (u +:+ rest)
                  Hnld 0 n ltac:(lia) Hdigits) as [Herr | [Hn _]];
        [done | lia]. }
  change (String c ds +:+ u +:+ rest) with (String c (ds +:+ u +:+ rest))
    in *.
  destruct Hcases as [[Hn Herr] | [Hn Hint]].
  - left. split; [done |]. unfold ParseDuration_step, leadingInt.
    rewrite Hc, orb_true_r. cbn [negb]. rewrite Herr. by eexists.
  - right. split; [done |].
    unfold ParseDuration_step, leadingInt.
    rewrite Hc, orb_true_r. cbn [negb]. rewrite Hint.
    assert ((len (String c (ds +:+ u +:+ rest)) =? len (u +:+ rest)) = false)
      as ->.
    { apply Z.eqb_neq. unfold len. simpl. rewrite !length_append. lia. }
    cbn [negb andb].
    remember (u +:+ rest) as ur eqn:Eur.
    destruct ur as [| c1 s1]; [| destruct Hhead as [-> _]];
      cbv beta iota; rewrite Eur, (unitSpan_unit u rest Hu Hrest).
    all: destruct (len u =? 0); [done |].
    all: destruct (unitMap u) as [unit |]; [| done].
    all: destruct (2 ^ 63 / unit <? n); [done |].
    all: change (0 <? 0) with false; cbv beta iota; reflexivity.
Qed.

(** ** [ParseDuration] around its loop: the sign and the end *)

Lemma digit_not_sign c :
  isDigit c = true → (Ascii.eqb c "-" || Ascii.eqb c "+") = false.
Proof.
  intros Hc. destruct (Ascii.eqb_spec c "-") as [-> | _]; [done |].
  by destruct (Ascii.eqb_spec c "+") as [-> | _].
Qed.

(** When the loop fails on [s], which starts with a digit and is not ["0"],
    [ParseDuration] fails on [s] and on [s] with a sign in front. *)
Lemma ParseDuration_sign_error c s :
  isDigit c = true → String.eqb (String c s) "0" = false →
  (∀ orig fuel, ∃ e,
     ParseDuration_loop (S fuel) orig (String c s) 0 = Some (inl e)) →
  (∃ e, ParseDuration (String c s) = (0, Some e))
  ∧ (∃ e, ParseDuration (String "+" (String c s)) = (0, Some e))
  ∧ (∃ e, ParseDuration (String "-" (String c s)) = (0, Some e)).
Proof.
  intros Hc Hzero Hloop. repeat split.
  - unfold ParseDuration, ParseDuration_fuel.
    rewrite (digit_not_sign c Hc), Hzero.
    change (String.eqb (String c s) "") with false. cbv beta iota.
    change (String.length (String c s)) with (S (String.length s)).
    destruct (Hloop (String c s) (String.length s)) as [e ->]. by eexists.
  - unfold ParseDuration, ParseDuration_fuel.
    change (Ascii.eqb "+" "-" || Ascii.eqb "+" "+") with true.
    cbv beta iota. rewrite Hzero.
    change (String.eqb (String c s) "") with false. cbv beta iota.
    change (String.length (String "+" (String c s)))
      with (S (S (String.length s))).
    destruct (Hloop (String "+" (String c s)) (S (String.length s)))
      as [e ->].
    by eexists.
  - unfold ParseDuration, ParseDuration_fuel.
    change (Ascii.eqb "-" "-" || Ascii.eqb "-" "+") with true.
    cbv beta iota. rewrite Hzero.
    change (String.eqb (String c s) "") with false. cbv beta iota.
    change (String.length (String "-" (String c s)))
      with (S (S (String.length s))).
    destruct (Hloop (String "-" (String c s)) (S (String.length s)))
      as [e ->].
    by eexists.
Qed.

(** When the loop ends on [s] with the sum [d], within the range of a
    [Duration], [ParseDuration] returns [d], and [- d] after a minus sign. *)
Lemma ParseDuration_sign_value c s d :
  isDigit c = true → String.eqb (String c s) "0" = false →
  0 ≤ d ≤ 2 ^ 63 - 1 →
  (∀ orig fuel, (String.length (String c s) ≤ fuel)%nat →
     ParseDuration_loop fuel orig (String c s) 0 = Some (inr d)) →
  ParseDuration (String c s) = (d, None)
  ∧ ParseDuration (String "+" (String c s)) = (d, None)
  ∧ ParseDuration (String "-" (String c s)) = (- d, None).
Proof.
  intros Hc Hzero Hd Hloop. repeat split.
  - unfold ParseDuration, ParseDuration_fuel.
    rewrite (digit_not_sign c Hc), Hzero.
    change (String.eqb (String c s) "") with false. cbv beta iota.
    rewrite Hloop by done.
    destruct (Z.ltb_spec (2 ^ 63 - 1) d); [lia |].
    by rewrite int64_small by lia.
  - unfold ParseDuration, ParseDuration_fuel.
    change (Ascii.eqb "+" "-" || Ascii.eqb "+" "+") with true.
    change (Ascii.eqb "+" "-") with false.
    cbv beta iota. rewrite Hzero.
    change (String.eqb (String c s) "") with false. cbv beta iota.
    rewrite Hloop by (simpl; lia).
    destruct (Z.ltb_spec (2 ^ 63 - 1) d); [lia |].
    by rewrite int64_small by lia.
  - unfold ParseDuration, ParseDuration_fuel.
    change (Ascii.eqb "-" "-" || Ascii.eqb "-" "+") with true.
    change (Ascii.eqb "-" "-") with true.
    cbv beta iota. rewrite Hzero.
    change (String.eqb (String c s) "") with false. cbv beta iota.
    rewrite Hloop by (simpl; lia).
    rewrite (int64_small d) by lia. by rewrite int64_small by lia.
Qed.

(** ** Durations that [getEnvAsDuration] takes and does not take *)

Lemma decimal_unsigned_head ds n :
  decimal_unsigned ds = Some n →
  ∃ c ds', ds = String c ds' ∧ isDigit c = true.
Proof.
  destruct ds as [| c ds']; [done |]. simpl.
  destruct (isDigit c) eqn:Hc; [| done]. by eexists _, _.
Qed.

Lemma ParseDuration_loop_no_unit ds n :
  decimal_unsigned ds = Some n →
  ∀ orig fuel, ∃ e, ParseDuration_loop (S fuel) orig ds 0 = Some (inl e).
Proof.
  intros Hds orig fuel.
  pose proof (ParseDuration_step_integer orig ds "" "" 0 n Hds eq_refl I
                (or_intror eq_refl)) as Hstep.
  change ("" +:+ "") with "" in Hstep. rewrite append_nil_r in Hstep.
  destruct (decimal_unsigned_head ds n Hds) as (c & ds' & -> & _).
  cbn [ParseDuration_loop].
  destruct Hstep as [[_ [e ->]] | [_ ->]]; by eexists.
Qed.

Lemma ParseDuration_loop_unknown_unit ds u n :
  decimal_unsigned ds = Some n →
  u ≠ "" → no_digit_or_period u = true → unitMap u = None →
  ∀ orig fuel,
    ∃ e, ParseDuration_loop (S fuel) orig (ds +:+ u) 0 = Some (inl e).
Proof.
  intros Hds Hne Hu Hmap orig fuel.
  pose proof (ParseDuration_step_integer orig ds u "" 0 n Hds Hu I
                (or_intror eq_refl)) as Hstep.
  rewrite append_nil_r in Hstep.
  destruct (decimal_unsigned_head ds n Hds) as (c & ds' & -> & _).
  change (String c ds' +:+ u) with (String c (ds' +:+ u)) in *.
  cbn [ParseDuration_loop].
  destruct Hstep as [[_ [e ->]] | [_ ->]]; [by eexists |].
  rewrite Hmap. destruct (len u =? 0); by eexists.
Qed.

Lemma getEnvAsDuration_value (env : gmap string string) key v dflt d :
  env !! key = Some v → ParseDuration v = (d, None) →
  getEnvAsDuration env key dflt = d.
Proof.
  intros Hv Hp. apply getEnvAsDuration_parsed.
  by rewrite (Getenv_lookup_Some _ _ _ Hv).
Qed.

Lemma getEnvAsDuration_error (env : gmap string string) key v dflt :
  env !! key = Some v → (∃ e, ParseDuration v = (0, Some e)) →
  getEnvAsDuration env key dflt = dflt.
Proof.
  intros Hv [e Hp]. apply (getEnvAsDuration_failed env key dflt 0 e).
  by rewrite (Getenv_lookup_Some _ _ _ Hv).
Qed.

Lemma unitMap_unit u unit :
  unitMap u = Some unit →
  0 < unit ∧ u ≠ "" ∧ no_digit_or_period u = true.
Proof.
  unfold unitMap.
  repeat match goal with
         | |- context [String.eqb u ?k] =>
             destruct (String.eqb_spec u k) as [-> | _];
             [by intros [= <-] |]
         end.
  done.
Qed.

Lemma terms_value_nonneg terms t : terms_value terms = Some t → 0 ≤ t.
Proof.
  revert t. induction terms as [| [ds u] terms IH]; intros t; simpl.
  - intros [= <-]. lia.
  - destruct (decimal_unsigned ds) as [n |] eqn:Hds; [| done].
    destruct (unitMap u) as [unit |] eqn:Hu; [| done].
    destruct (terms_value terms) as [r |]; [| done]. intros [= <-].
    specialize (IH r eq_refl). apply unitMap_unit in Hu as [? _].
    destruct ds as [| c ds]; [done |].
    simpl in Hds. destruct (isDigit c) eqn:Hc; [| done].
    apply isDigit_spec in Hc. apply decimal_digits_ge in Hds; [| lia]. nia.
Qed.

Lemma render_terms_at_unit_end terms t :
  terms_value terms = Some t → at_unit_end (render_terms terms).
Proof.
  destruct terms as [| [ds u] terms]; [done |]. simpl.
  destruct (decimal_unsigned ds) as [n |] eqn:Hds; [| done]. intros _.
  destruct (decimal_unsigned_head ds n Hds) as (c & ds' & -> & Hc).
  unfold at_unit_end.
  change (String c ds' +:+ u +:+ render_terms terms)
    with (String c (ds' +:+ u +:+ render_terms terms)).
  cbv beta iota. by rewrite Hc, orb_true_r.
Qed.

Lemma render_terms_length terms t :
  terms_value terms = Some t →
  (length terms ≤ String.length (render_terms terms))%nat.
Proof.
  revert t. induction terms as [| [ds u] terms IH]; intros t; simpl; [lia |].
  destruct (decimal_unsigned ds) as [n |] eqn:Hds; [| done].
  destruct (unitMap u) as [unit |]; [| done].
  destruct (terms_value terms) as [r |]; [| done]. intros _.
  specialize (IH r eq_refl). rewrite !length_append.
  destruct ds; [done |]. simpl. lia.
Qed.

(** The loop on a string of terms adds the terms up. *)
Lemma ParseDuration_loop_terms orig terms :
  ∀ d t, 0 ≤ d → terms_value terms = Some t → d + t ≤ 2 ^ 63 →
    ParseDuration_loop (length terms) orig (render_terms terms) d
    = Some (inr (d + t)).
Proof.
  induction terms as [| [ds u] terms IH]; intros d t Hd Ht Hmax.
  - simpl in *. injection Ht as <-. by rewrite Z.add_0_r.
  - pose proof (render_terms_at_unit_end terms) as Hend.
    pose proof (terms_value_nonneg terms) as Hrest.
    simpl in Ht.
    destruct (decimal_unsigned ds) as [n |] eqn:Hds; [| done].
    destruct (unitMap u) as [unit |] eqn:Hu; [| done].
    destruct (terms_value terms) as [r |] eqn:Hr; [| done].
    injection Ht as <-. specialize (Hend r eq_refl).
    specialize (Hrest r eq_refl).
    destruct (unitMap_unit u unit Hu) as (Hunit & Hne & Hnd).
    assert (0 ≤ n) as Hn0.
    { destruct ds as [| c ds]; [done |]. simpl in Hds.
      destruct (isDigit c) eqn:Hc; [| done]. apply isDigit_spec in Hc.
      apply decimal_digits_ge in Hds; lia. }
    destruct (ParseDuration_step_integer orig ds u (render_terms terms) d n
                Hds Hnd Hend (or_introl Hne)) as [[Hbig _] | [_ Hstep]];
      [nia |].
    destruct (decimal_unsigned_head ds n Hds) as (c & ds' & -> & _).
    cbn [render_terms length].
    change (String c ds' +:+ u +:+ render_terms terms)
      with (String c (ds' +:+ u +:+ render_terms terms)) in *.
    cbn [ParseDuration_loop]. rewrite Hstep, Hu.
    assert ((len u =? 0) = false) as ->.
    { apply Z.eqb_neq. unfold len. destruct u; [done | simpl; lia]. }
    assert (n ≤ 2 ^ 63 / unit) by (apply Z.div_le_lower_bound; nia).
    destruct (Z.ltb_spec (2 ^ 63 / unit) n); [lia |].
    rewrite (uint64_small (n * unit)) by nia.
    rewrite (uint64_small (d + n * unit)) by nia.
    destruct (Z.ltb_spec (2 ^ 63) (d + n * unit)); [nia |].
    rewrite (IH (d + n * unit) r) by (done || nia). f_equal. f_equal. lia.
Qed.

(** X7: a duration variable set to a number without a unit gives the
    default, whatever the number and its sign, with one exception: the
    literal zero (["0"], ["+0"], ["-0"]) is taken as the zero duration. *)
Theorem getEnvAsDuration_no_unit (env : gmap string string)
  (key v : string) (dflt n : Z) :
  env !! key = Some v →
  decimal_integer v = Some n →
  getEnvAsDuration env key dflt
  = if String.eqb v "0" || String.eqb v "+0" || String.eqb v "-0"
    then 0 else dflt.
Proof.
  intros Hv Hn.
  assert (Hdigits : ∀ c s m, isDigit c = true →
            decimal_unsigned (String c s) = Some m →
            String.eqb (String c s) "0" = false →
            (∃ e, ParseDuration (String c s) = (0, Some e))
            ∧ (∃ e, ParseDuration (String "+" (String c s)) = (0, Some e))
            ∧ (∃ e, ParseDuration (String "-" (String c s)) = (0, Some e))).
  { intros c s m Hc Hm Hz. apply ParseDuration_sign_error; [done | done |].
    by apply (ParseDuration_loop_no_unit _ m). }
  destruct v as [| c s]; [done |]. unfold decimal_integer in Hn.
  destruct (Ascii.eqb_spec c "+") as [-> | Hplus];
    [| destruct (Ascii.eqb_spec c "-") as [-> | Hminus]].
  - destruct (decimal_unsigned_head s n Hn) as (c' & s' & -> & Hc').
    change (String.eqb (String "+" (String c' s')) "0") with false.
    change (String.eqb (String "+" (String c' s')) "-0") with false.
    change (String.eqb (String "+" (String c' s')) "+0")
      with (String.eqb (String c' s') "0").
    rewrite orb_false_l, orb_false_r.
    destruct (String.eqb_spec (String c' s') "0") as [[= -> ->] | Hz].
    + by apply (getEnvAsDuration_value env key "+0").
    + apply String.eqb_neq in Hz.
      apply (getEnvAsDuration_error env key _ dflt Hv).
      apply (Hdigits c' s' n Hc' Hn Hz).
  - destruct (decimal_unsigned s) as [m |] eqn:Hm; [| done].
    destruct (decimal_unsigned_head s m Hm) as (c' & s' & -> & Hc').
    change (String.eqb (String "-" (String c' s')) "0") with false.
    change (String.eqb (String "-" (String c' s')) "+0") with false.
    change (String.eqb (String "-" (String c' s')) "-0")
      with (String.eqb (String c' s') "0").
    rewrite !orb_false_l.
    destruct (String.eqb_spec (String c' s') "0") as [[= -> ->] | Hz].
    + by apply (getEnvAsDuration_value env key "-0").
    + apply String.eqb_neq in Hz.
      apply (getEnvAsDuration_error env key _ dflt Hv).
      apply (Hdigits c' s' m Hc' Hm Hz).
  - destruct (decimal_unsigned_head _ n Hn) as (c' & s' & [= <- <-] & Hc).
    assert (String.eqb (String c s) "+0" = false) as ->.
    { apply String.eqb_neq. congruence. }
    assert (String.eqb (String c s) "-0" = false) as ->.
    { apply String.eqb_neq. congruence. }
    rewrite !orb_false_r.
    destruct (String.eqb_spec (String c s) "0") as [[= -> ->] | Hz].
    + by apply (getEnvAsDuration_value env key "0").
    + apply String.eqb_neq in Hz.
      apply (getEnvAsDuration_error env key _ dflt Hv).
      apply (Hdigits c s n Hc Hn Hz).
Qed.

(** A token lifetime of 3600 without a unit: the default of 24 hours. *)
Lemma getEnvAsDuration_no_unit_witness :
  getEnvAsDuration {[ "JWT_EXPIRES_IN" := "3600" ]} "JWT_EXPIRES_IN"
    (24 * Hour) = 24 * Hour
  ∧ getEnvAsDuration {[ "JWT_EXPIRES_IN" := "0" ]} "JWT_EXPIRES_IN"
      (24 * Hour) = 0.
Proof.
  split.
  - apply (getEnvAsDuration_no_unit _ "JWT_EXPIRES_IN" "3600" (24 * Hour)
             3600); reflexivity.
  - apply (getEnvAsDuration_no_unit _ "JWT_EXPIRES_IN" "0" (24 * Hour) 0);
      reflexivity.
Defined.

(** X8: a duration variable set to a number followed by a unit that
    [time.ParseDuration] does not know (days, a unit in capitals, a unit
    followed by a space) gives the default, with or without a sign in
    front. *)
Theorem getEnvAsDuration_unknown_unit (env : gmap string string)
  (key sign ds u : string) (dflt n : Z) :
  sign = "" ∨ sign = "+" ∨ sign = "-" →
  decimal_unsigned ds = Some n →
  u ≠ "" → no_digit_or_period u = true → unitMap u = None →
  env !! key = Some (sign +:+ ds +:+ u) →
  getEnvAsDuration env key dflt = dflt.
Proof.
  intros Hsign Hds Hne Hu Hmap Hv.
  apply (getEnvAsDuration_error env key _ dflt Hv).
  destruct (decimal_unsigned_head ds n Hds) as (c & ds' & -> & Hc).
  assert (Hz : String.eqb (String c (ds' +:+ u)) "0" = false).
  { apply String.eqb_neq. intros [= -> Heq].
    destruct ds'; [by destruct u | done]. }
  pose proof (ParseDuration_sign_error c (ds' +:+ u) Hc Hz
                (ParseDuration_loop_unknown_unit (String c ds') u n
                   Hds Hne Hu Hmap)) as (H0 & Hp & Hm).
  by destruct Hsign as [-> | [-> | ->]].
Qed.

(** An idle time of seven days. *)
Lemma getEnvAsDuration_unknown_unit_witness :
  getEnvAsDuration {[ "DB_MAX_IDLE_TIME" := "7d" ]} "DB_MAX_IDLE_TIME"
    (15 * Minute) = 15 * Minute.
Proof.
  apply (getEnvAsDuration_unknown_unit _ "DB_MAX_IDLE_TIME" "" "7" "d"
           (15 * Minute) 7); try reflexivity; [by left | discriminate].
Defined.

(** X9: a duration written as several terms, each a decimal magnitude and a
    unit of [time.ParseDuration] (["1h30m"], ["2m30s500ms"]), resolves to
    the sum of the terms, and to its opposite after a minus sign, as long
    as the sum fits a [Duration]: a negative lifetime or idle time is taken
    as it is. *)
Theorem getEnvAsDuration_terms (env : gmap string string)
  (key sign : string) (terms : list (string * string)) (dflt total : Z) :
  sign = "" ∨ sign = "+" ∨ sign = "-" →
  terms ≠ [] →
  terms_value terms = Some total →
  total ≤ 2 ^ 63 - 1 →
  env !! key = Some (sign +:+ render_terms terms) →
  getEnvAsDuration env key dflt
  = if String.eqb sign "-" then - total else total.
Proof.
  intros Hsign Hne Ht Hmax Hv.
  pose proof (terms_value_nonneg terms total Ht) as Hpos.
  pose proof (render_terms_length terms total Ht) as Hlen.
  assert (Hloop : ∀ orig fuel,
            (String.length (render_terms terms) ≤ fuel)%nat →
            ParseDuration_loop fuel orig (render_terms terms) 0
            = Some (inr total)).
  { intros orig fuel Hfuel.
    apply (ParseDuration_loop_more orig (length terms)); [lia |].
    by apply (ParseDuration_loop_terms orig terms 0 total); [| | lia]. }
  destruct terms as [| [ds u] terms]; [done |]. simpl in Ht.
  destruct (decimal_unsigned ds) as [n |] eqn:Hds; [| done].
  destruct (unitMap u) as [unit |] eqn:Hu; [| done].
  destruct (decimal_unsigned_head ds n Hds) as (c & ds' & -> & Hc).
  destruct (unitMap_unit u unit Hu) as (_ & Hu0 & _).
  cbn [render_terms] in *.
  change (String c ds' +:+ u +:+ render_terms terms)
    with (String c (ds' +:+ u +:+ render_terms terms)) in *.
  assert (Hz : String.eqb (String c (ds' +:+ u +:+ render_terms terms)) "0"
               = false).
  { apply String.eqb_neq. intros [= -> Heq].
    destruct ds'; [by destruct u | done]. }
  destruct (ParseDuration_sign_value c _ total Hc Hz ltac:(lia) Hloop)
    as (H0 & Hp & Hm).
  destruct Hsign as [-> | [-> | ->]];
    by apply (getEnvAsDuration_value env key _ dflt _ Hv).
Qed.

(** An hour and a half, and minus an hour and a half. *)
Lemma getEnvAsDuration_terms_witness :
  getEnvAsDuration {[ "JWT_EXPIRES_IN" := "1h30m" ]} "JWT_EXPIRES_IN"
    (24 * Hour) = 90 * Minute
  ∧ getEnvAsDuration {[ "JWT_EXPIRES_IN" := "-1h30m" ]} "JWT_EXPIRES_IN"
      (24 * Hour) = - (90 * Minute).
Proof.
  split.
  - apply (getEnvAsDuration_terms _ "JWT_EXPIRES_IN" ""
             [("1", "h"); ("30", "m")] (24 * Hour) (90 * Minute));
      [by left | discriminate | reflexivity | vm_compute; discriminate
      | reflexivity].
  - apply (getEnvAsDuration_terms _ "JWT_EXPIRES_IN" "-"
             [("1", "h"); ("30", "m")] (24 * Hour) (90 * Minute));
      [by right; right | discriminate | reflexivity
      | vm_compute; discriminate | reflexivity].
Defined.

(** ** [initLogger] *)

Section initLogger_properties.
Context {Others Built : Type}.
Variables NewProductionConfig NewDevelopmentConfig : zap_Config Others.
Variable Build : zap_Config Others → Built.

Local Abbreviation run :=
  (initLogger NewProductionConfig NewDevelopmentConfig Build).

Lemma getEnv_test (env : gmap string string) key dflt lit :
  lit ≠ "" →
  String.eqb (getEnv env key dflt) lit
  = if String.eqb (Getenv env key) "" then String.eqb dflt lit
    else String.eqb (Getenv env key) lit.
Proof.
  intros Hlit. unfold getEnv.
  by destruct (String.eqb_spec (Getenv env key) "").
Qed.

(** The [switch] on the level of [initLogger]. *)
Lemma level_switch {B} (f : zapcore_Level → B) (logLevel : string) :
  (if String.eqb logLevel "debug" then f DebugLevel
   else if String.eqb logLevel "info" then f InfoLevel
   else if String.eqb logLevel "warn" then f WarnLevel
   else if String.eqb logLevel "error" then f ErrorLevel
   else f InfoLevel)
  = f (level_named logLevel).
Proof.
  unfold level_named.
  destruct (String.eqb_spec logLevel "debug") as [-> | _]; [done |].
  destruct (String.eqb_spec logLevel "info") as [-> | _]; [done |].
  destruct (String.eqb_spec logLevel "warn") as [-> | _]; [done |].
  by destruct (String.eqb_spec logLevel "error") as [-> | _].
Qed.

Lemma level_named_getEnv (env : gmap string string) key :
  level_named (getEnv env key "info") = level_named (Getenv env key).
Proof.
  unfold getEnv.
  by destruct (String.eqb_spec (Getenv env key) "") as [-> | _].
Qed.

(** X10: [initLogger] reads [ENV], [LOG_FORMAT] and [LOG_LEVEL] from the
    environment and not from the snapshot, and still agrees with the
    snapshot that [Load] returns in the same environment. The configuration
    it builds has the fields of the production profile exactly when [main]
    finds [cfg.App.Environment == "production"] and those of the
    development profile otherwise, the encoding [json] exactly when
    [cfg.Logging.Format] is [json] and [console] otherwise, and the level
    that [cfg.Logging.Level] names; and [initLogger] returns the same
    logger when it is run on these three attributes of the snapshot. *)
Theorem initLogger_agrees_with_Load (env : gmap string string) :
  let cfg := (Load env).1 in
  (∃ config,
     run env = Build config
     ∧ zap_Others config
       = zap_Others
           (if String.eqb (App_Environment (App cfg)) "production"
            then NewProductionConfig else NewDevelopmentConfig)
     ∧ zap_Encoding config
       = (if String.eqb (Logging_Format (Logging cfg)) "json"
          then "json" else "console")
     ∧ zap_Level config = level_named (Logging_Level (Logging cfg)))
  ∧ run env
    = run
        {[ "ENV" := App_Environment (App cfg);
           "LOG_FORMAT" := Logging_Format (Logging cfg);
           "LOG_LEVEL" := Logging_Level (Logging cfg) ]}.
Proof.
  cbn zeta. unfold Load.
  cbn [fst App Logging App_Environment Logging_Format Logging_Level].
  split.
  - unfold initLogger. rewrite level_switch. eexists. split; [reflexivity |].
    rewrite level_named_getEnv, !getEnv_test by done.
    destruct (String.eqb_spec (Getenv env "ENV") "") as [-> | _];
      destruct (String.eqb_spec (Getenv env "LOG_FORMAT") "") as [-> | _];
      cbn [String.eqb Ascii.eqb Bool.eqb];
      try destruct (String.eqb (Getenv env "ENV") "production");
      try destruct (String.eqb (Getenv env "LOG_FORMAT") "json");
      by repeat split.
  - unfold initLogger.
    rewrite Getenv_insert_eq.
    rewrite (Getenv_insert_ne _ "ENV" "LOG_FORMAT") by done.
    rewrite Getenv_insert_eq.
    rewrite (Getenv_insert_ne _ "ENV" "LOG_LEVEL") by done.
    rewrite (Getenv_insert_ne _ "LOG_FORMAT" "LOG_LEVEL") by done.
    rewrite Getenv_singleton.
    rewrite !getEnv_test by done.
    destruct (String.eqb_spec (Getenv env "ENV") "") as [-> | _];
      destruct (String.eqb_spec (Getenv env "LOG_FORMAT") "") as [-> | _];
      destruct (String.eqb_spec (Getenv env "LOG_LEVEL") "") as [-> | _];
      reflexivity.
Qed.

(** X11: a value that [initLogger] does not know is read as the default
    one: a level other than [debug], [info], [warn] and [error] as [info],
    a format other than [json] as [console], an environment other than
    [production] as [development]. The comparisons are exact: capitals or
    spaces make a value unknown. *)
Theorem initLogger_unknown_values (env : gmap string string) :
  (Getenv env "LOG_LEVEL" ≠ "debug" → Getenv env "LOG_LEVEL" ≠ "warn" →
   Getenv env "LOG_LEVEL" ≠ "error" →
   run env = run (<["LOG_LEVEL" := "info"]> env))
  ∧ (Getenv env "LOG_FORMAT" ≠ "json" →
     run env = run (<["LOG_FORMAT" := "console"]> env))
  ∧ (Getenv env "ENV" ≠ "production" →
     run env = run (<["ENV" := "development"]> env)).
Proof.
  repeat split.
  - intros Hd Hw He. unfold initLogger.
    rewrite Getenv_insert_eq, !(Getenv_insert_ne _ "LOG_LEVEL") by done.
    destruct (String.eqb_spec (Getenv env "LOG_LEVEL") "debug"); [done |].
    destruct (String.eqb_spec (Getenv env "LOG_LEVEL") "info"); [done |].
    destruct (String.eqb_spec (Getenv env "LOG_LEVEL") "warn"); [done |].
    by destruct (String.eqb_spec (Getenv env "LOG_LEVEL") "error").
  - intros Hj. unfold initLogger.
    rewrite Getenv_insert_eq, !(Getenv_insert_ne _ "LOG_FORMAT") by done.
    by destruct (String.eqb_spec (Getenv env "LOG_FORMAT") "json").
  - intros Hp. unfold initLogger.
    rewrite Getenv_insert_eq, !(Getenv_insert_ne _ "ENV") by done.
    by destruct (String.eqb_spec (Getenv env "ENV") "production").
Qed.

(** X12: the level and the encoding that a profile of zap comes with are
    never used: [initLogger] assigns both fields in every environment, so
    it returns the same logger if the profiles are given any other level
    and encoding. With [LOG_LEVEL] and [LOG_FORMAT] unset, the logger has
    level [info] and encoding [console] under both profiles. *)
Theorem initLogger_overrides_profile (env : gmap string string)
  (l1 l2 : zapcore_Level) (e1 e2 : string) :
  initLogger (set_Encoding (set_Level NewProductionConfig l1) e1)
    (set_Encoding (set_Level NewDevelopmentConfig l2) e2) Build env
  = run env
  ∧ (Getenv env "LOG_LEVEL" = "" → Getenv env "LOG_FORMAT" = "" →
     ∃ config, run env = Build config
               ∧ zap_Level config = InfoLevel
               ∧ zap_Encoding config = "console").
Proof.
  split.
  - unfold initLogger.
    destruct (String.eqb (Getenv env "ENV") "production");
      destruct (String.eqb (Getenv env "LOG_FORMAT") "json");
      destruct (String.eqb (Getenv env "LOG_LEVEL") "debug");
      destruct (String.eqb (Getenv env "LOG_LEVEL") "info");
      destruct (String.eqb (Getenv env "LOG_LEVEL") "warn");
      destruct (String.eqb (Getenv env "LOG_LEVEL") "error");
      reflexivity.
  - intros Hl Hf. unfold initLogger. rewrite Hl, Hf. cbn.
    by eexists.
Qed.

End initLogger_properties.

(** The three theorems on a production and a development profile that
    differ in everything, with [Build] returning the configuration it is
    given. *)
Lemma initLogger_unknown_values_witness :
  let production :=
    {| zap_Level := InfoLevel; zap_Encoding := "json"; zap_Others := true |} in
  let development :=
    {| zap_Level := DebugLevel; zap_Encoding := "console";
       zap_Others := false |} in
  let env : gmap string string :=
    {[ "LOG_LEVEL" := "DEBUG"; "LOG_FORMAT" := "JSON"; "ENV" := "prod" ]} in
  initLogger production development id env
  = {| zap_Level := InfoLevel; zap_Encoding := "console";
       zap_Others := false |}.
Proof.
  intros production development env.
  destruct (initLogger_unknown_values production development id env)
    as (Hlevel & _).
  rewrite Hlevel by discriminate. reflexivity.
Defined.

(** In production with the level set to [warn] and no format: the fields of
    the production profile, its encoding and level replaced. *)
Lemma initLogger_agrees_with_Load_witness :
  let production :=
    {| zap_Level := InfoLevel; zap_Encoding := "json"; zap_Others := true |} in
  let development :=
    {| zap_Level := DebugLevel; zap_Encoding := "console";
       zap_Others := false |} in
  let env : gmap string string :=
    {[ "ENV" := "production"; "LOG_LEVEL" := "warn" ]} in
  App_Environment (App (Load env).1) = "production"
  ∧ initLogger production development id env
    = {| zap_Level := WarnLevel; zap_Encoding := "console";
         zap_Others := true |}.
Proof.
  intros production development env. split; [reflexivity |].
  destruct (initLogger_agrees_with_Load production development id env)
    as [(config & -> & Hothers & Hencoding & Hlevel) _].
  destruct config as [level encoding others].
  cbn in Hothers, Hencoding, Hlevel. by subst.
Defined.
